(** * Battery discharge simulation: a shallow embedding and its properties

    The development follows [Battery_simulation_project.py]: the class
    [Batterysimulator] with its constructor, [peukert_capacity],
    [discharge_simulation] and [print_summary], together with the NumPy and
    SciPy array functions they call ([linspace], [full_like], [sign], [sin],
    [clip], [mean], [cumulative_trapezoid], [random.randn], [where], [max],
    [min], [trapz]).  [plot_results] and [main] drive matplotlib and are
    left out.

    Numbers.  A Python number handed to the program (a constructor argument,
    a call parameter, a draw of the random generator) is a real number.  A
    value computed by NumPy is a [float64]: a real number, or one of the
    IEEE special values the program can produce from real inputs by a
    division by zero or a power of a negative base (infinities and NaN,
    which NumPy returns instead of raising; the source silences the
    warnings).  Finite arithmetic is exact: rounding, overflow and the sign
    of zero are left out of the model.  Two places where the program's
    rounding shows are kept out of the statements: the sign of the sine
    next to a multiple of pi, where the properties of the pulsed profile
    keep a guard band, and the mean of equal numbers, which is stated
    within a tolerance.

    State.  The methods run in a state and error monad over the simulator
    object and NumPy's global random generator, a stream of standard normal
    draws; [raise ValueError] is the error.  [print_summary] runs in an
    output monad: the lines printed so far, and the exceptions NumPy raises
    on arrays that do not fit.

    The file has the program first, then the functions and predicates the
    statements use, then the lemmas, the properties of the specification,
    C1 to C10, and at the end further properties of the program, X1 to
    X23. *)

From Stdlib Require Import Reals Lra Lia String Bool ZArith List Sorted.
Import ListNotations.

Open Scope R_scope.

(** ** NumPy scalars *)

Module Np.

Inductive float64 : Type :=
| Fin (x : R)
| PInf
| NInf
| NaN.

Definition finite (a : float64) : Prop :=
  match a with Fin _ => True | _ => False end.

(** The infinity with the sign of [x]; NaN when [x] is zero
    (the value of [x * inf], and of [x / 0]). *)
Definition inf_of_sign (x : R) : float64 :=
  if Rlt_dec 0 x then PInf else if Rlt_dec x 0 then NInf else NaN.

Definition neg (a : float64) : float64 :=
  match a with
  | Fin x => Fin (- x)
  | PInf => NInf
  | NInf => PInf
  | NaN => NaN
  end.

Definition add (a b : float64) : float64 :=
  match a, b with
  | Fin x, Fin y => Fin (x + y)
  | NaN, _ | _, NaN => NaN
  | PInf, NInf | NInf, PInf => NaN
  | PInf, _ | _, PInf => PInf
  | NInf, _ | _, NInf => NInf
  end.

Definition sub (a b : float64) : float64 :=
  match a, b with
  | Fin x, Fin y => Fin (x - y)
  | _, _ => add a (neg b)
  end.

Definition mul (a b : float64) : float64 :=
  match a, b with
  | Fin x, Fin y => Fin (x * y)
  | NaN, _ | _, NaN => NaN
  | Fin x, PInf | PInf, Fin x => inf_of_sign x
  | Fin x, NInf | NInf, Fin x => inf_of_sign (- x)
  | PInf, PInf | NInf, NInf => PInf
  | PInf, NInf | NInf, PInf => NInf
  end.

(** NumPy division: a zero divisor gives an infinity, or NaN for [0 / 0]. *)
Definition div (a b : float64) : float64 :=
  match a, b with
  | Fin x, Fin y => if Req_dec_T y 0 then inf_of_sign x else Fin (x / y)
  | NaN, _ | _, NaN => NaN
  | Fin _, (PInf | NInf) => Fin 0
  | PInf, Fin y => if Rlt_dec y 0 then NInf else PInf
  | NInf, Fin y => if Rlt_dec y 0 then PInf else NInf
  | (PInf | NInf), (PInf | NInf) => NaN
  end.

(** Comparisons: every comparison with NaN is false. *)
Definition ltb (a b : float64) : bool :=
  match a, b with
  | Fin x, Fin y => if Rlt_dec x y then true else false
  | NaN, _ | _, NaN => false
  | _, NInf => false
  | PInf, _ => false
  | _, PInf => true
  | NInf, _ => true
  end.

Definition leb (a b : float64) : bool :=
  match a, b with
  | Fin x, Fin y => if Rle_dec x y then true else false
  | NaN, _ | _, NaN => false
  | NInf, _ => true
  | _, PInf => true
  | _, NInf => false
  | PInf, _ => false
  end.

(** [np.sign]: -1, 0 or 1, and NaN for NaN. *)
Definition sign (a : float64) : float64 :=
  match a with
  | Fin x => if Rlt_dec 0 x then Fin 1 else if Rlt_dec x 0 then Fin (-1) else Fin 0
  | PInf => Fin 1
  | NInf => Fin (-1)
  | NaN => NaN
  end.

(** [np.sin]: the sine of an infinity is NaN. *)
Definition sin (a : float64) : float64 :=
  match a with
  | Fin x => Fin (Rtrigo_def.sin x)
  | _ => NaN
  end.

Definition is_integer (y : R) : bool :=
  if Req_dec_T y (IZR (Int_part y)) then true else false.

(** [x ** y] for a float64 base and a finite exponent, as C's [pow]:
    anything to the power 0 is 1; a negative base with an exponent that is
    not an integer gives NaN; a zero base gives 0 or an infinity. *)
Definition power (a : float64) (y : R) : float64 :=
  if Req_dec_T y 0 then Fin 1 else
  match a with
  | Fin x =>
      if Rlt_dec 0 x then Fin (Rpower x y)
      else if Req_dec_T x 0 then (if Rlt_dec 0 y then Fin 0 else PInf)
      else if is_integer y then Fin (powerRZ x (Int_part y))
      else NaN
  | PInf => if Rlt_dec 0 y then PInf else Fin 0
  | NInf =>
      if Rlt_dec 0 y
      then (if is_integer y && Z.odd (Int_part y) then NInf else PInf)
      else Fin 0
  | NaN => NaN
  end.

(** [np.maximum] and [np.minimum] propagate NaN. *)
Definition maximum (a b : float64) : float64 :=
  match a, b with
  | NaN, _ | _, NaN => NaN
  | _, _ => if ltb a b then b else a
  end.

Definition minimum (a b : float64) : float64 :=
  match a, b with
  | NaN, _ | _, NaN => NaN
  | _, _ => if ltb b a then b else a
  end.

(** [np.clip(a, lo, hi)] is [minimum(maximum(a, lo), hi)]. *)
Definition clip1 (lo hi a : float64) : float64 :=
  minimum (maximum a lo) hi.

End Np.

Import Np.

(** Python's builtin [min] and [max] on two arguments keep the first
    argument unless the second compares strictly below (above) it, so a NaN
    second argument is dropped. *)
Definition py_min (a b : float64) : float64 := if ltb b a then b else a.
Definition py_max (a b : float64) : float64 := if ltb a b then b else a.

(** ** NumPy and SciPy arrays

    A one-dimensional [ndarray] of dtype float64 is a list. *)

#[warning="-notation-for-abbreviation"]
Notation ndarray := (list float64) (only parsing).

(** Elementwise binary operation on two arrays of the same shape. *)
Definition zip_with (f : float64 -> float64 -> float64) (a b : ndarray) : ndarray :=
  map (fun p => f (fst p) (snd p)) (combine a b).

(** [np.linspace(start, stop, num)] with the end point included: [num]
    samples [i * step + start] (computed as [i / div * delta] when the step
    is zero), the last one overwritten by [stop]. *)
Definition linspace (start stop : R) (num : nat) : ndarray :=
  let div := INR (num - 1) in
  let delta := stop - start in
  let step := delta / div in
  let y := map (fun i : nat =>
                  (if Req_dec_T step 0 then INR i / div * delta else INR i * step)
                  + start) (seq 0 num) in
  map Fin (if (1 <? num)%nat then firstn (num - 1) y ++ [stop] else y).

(** [np.full_like(a, v)]. *)
Definition full_like (a : ndarray) (v : R) : ndarray := map (fun _ => Fin v) a.

(** [np.clip(a, lo, hi)] on an array. *)
Definition clip (a : ndarray) (lo hi : R) : ndarray := map (clip1 (Fin lo) (Fin hi)) a.

(** [np.diff(x)]: [x[1:] - x[:-1]]. *)
Definition diff (x : ndarray) : ndarray := zip_with sub (tl x) (removelast x).

(** [np.cumsum]. *)
Fixpoint cumsum_from (acc : float64) (a : ndarray) : ndarray :=
  match a with
  | [] => []
  | v :: a' => let s := add acc v in s :: cumsum_from s a'
  end.

Definition cumsum (a : ndarray) : ndarray :=
  match a with
  | [] => []
  | v :: a' => v :: cumsum_from v a'
  end.

(** [np.mean]: the sum of the entries divided by their number. *)
Definition mean (a : ndarray) : float64 :=
  div (fold_left add a (Fin 0)) (Fin (INR (length a))).

(** [scipy.integrate.cumulative_trapezoid(y, x, initial=0)]:
    [cumsum(d * (y[1:] + y[:-1]) / 2.0)] with [d = diff(x)], and the
    initial value put in front. *)
Definition cumulative_trapezoid (y x : ndarray) : ndarray :=
  let d := diff x in
  let res := cumsum (map (fun v => div v (Fin 2))
                         (zip_with mul d (zip_with add (tl y) (removelast y)))) in
  Fin 0 :: res.

(** ** The program state: the simulator object and the global generator *)

(** The attributes [__init__] sets on a [Batterysimulator]. *)
Record Batterysimulator : Type := {
  capacity_Ah : R;
  initial_SOC : R;
  nominal_voltage : R;
  internal_resistance : R;
  peukert_exponent : R;
  capacity_As : R
}.

Definition __init__ (capacity_Ah initial_soc nominal_voltage : R) : Batterysimulator :=
  {| capacity_Ah := capacity_Ah;
     initial_SOC := initial_soc;
     nominal_voltage := nominal_voltage;
     internal_resistance := 0.05;
     peukert_exponent := 1.1;
     capacity_As := capacity_Ah * 3600 |}.

(** NumPy's global generator: the stream of standard normal draws still to
    come.  Each draw is a real number. *)
Definition rng : Type := nat -> R.

Record World : Type := {
  self : Batterysimulator;
  random_state : rng
}.

Inductive exn : Type :=
| ValueError (msg : string).

(** Computations that read and write the state and may raise. *)
Definition M (A : Type) : Type := World -> (exn + A) * World.

Definition ret {A} (a : A) : M A := fun w => (inr a, w).

Definition bind {A B} (m : M A) (k : A -> M B) : M B :=
  fun w => match m w with
           | (inl e, w') => (inl e, w')
           | (inr a, w') => k a w'
           end.

Definition raise {A} (e : exn) : M A := fun w => (inl e, w).

Notation "x <- m ;; k" := (bind m (fun x => k))
  (at level 61, m at next level, right associativity).

Definition get_self : M Batterysimulator := fun w => (inr (self w), w).

(** [np.random.randn(n)]: the next [n] draws, which the generator forgets. *)
Definition randn (n : nat) : M ndarray :=
  fun w =>
    (inr (map (fun i => Fin (random_state w i)) (seq 0 n)),
     {| self := self w;
        random_state := fun k => random_state w (n + k)%nat |}).

Fixpoint mapM {A B} (f : A -> M B) (l : list A) : M (list B) :=
  match l with
  | [] => ret []
  | a :: l' => b <- f a ;; bs <- mapM f l' ;; ret (b :: bs)
  end.

(** ** The class [Batterysimulator] *)

Definition peukert_capacity (current : float64) : M float64 :=
  this <- get_self ;;
  let I_ref := Fin (capacity_Ah this / 20) in
  if leb current (Fin 0) then ret (Fin (capacity_As this))
  else
    let peukert_factor := power (div I_ref current) (peukert_exponent this - 1) in
    let peukert_factor := py_max (Fin 0.3) (py_min (Fin 2.0) peukert_factor) in
    ret (mul (Fin (capacity_As this)) peukert_factor).

(** The dictionary [discharge_simulation] returns. *)
Record SimulationResult : Type := {
  time_hours : ndarray;
  time_seconds : ndarray;
  current_A : ndarray;
  SOC_percent : ndarray;
  voltage_V : ndarray;
  power_W : ndarray;
  remaining_capacity_Ah : ndarray;
  effective_capacity_As : float64
}.

Open Scope string_scope.

(** [discharge_simulation]; the arguments Python would default
    ([current_profile='constant'], [current_value=5], [add_noise=True])
    are always passed. *)
Definition discharge_simulation (time_hours : R) (current_profile : string)
    (current_value : R) (add_noise : bool) : M SimulationResult :=
  this <- get_self ;;
  let time_seconds := time_hours * 3600 in
  let t := linspace 0 time_seconds 1000 in
  I <- (if current_profile =? "constant" then
          ret (full_like t current_value)
        else if current_profile =? "pulsed" then
          ret (map (fun ti => mul (Fin current_value)
                    (add (Fin 0.5) (mul (Fin 0.5)
                       (sign (sin (div (mul (Fin (2 * PI)) ti) (Fin 3600))))))) t)
        else if current_profile =? "ramp" then
          ret (map (fun ti => mul (Fin current_value)
                    (add (Fin 0.5) (div (mul (Fin 0.5) ti) (Fin time_seconds)))) t)
        else if current_profile =? "random" then
          z <- randn (length t) ;;
          let I := map (fun zi => mul (Fin current_value)
                          (add (Fin 0.7) (mul (Fin 0.6) zi))) z in
          ret (clip I (0.1 * current_value) (2 * current_value))
        else raise (ValueError "Invalid current profile.")) ;;
  I <- (if add_noise then
          z <- randn (length t) ;;
          ret (zip_with add I (map (mul (Fin (0.05 * current_value))) z))
        else ret I) ;;
  let Q_discharged := cumulative_trapezoid I t in
  effective_capacities <- mapM peukert_capacity I ;;
  let avg_effective_capacity := mean effective_capacities in
  let SOC := map (fun q => sub (Fin (initial_SOC this))
                    (mul (div q avg_effective_capacity) (Fin 100))) Q_discharged in
  let SOC := clip SOC 0 100 in
  let OCV := map (fun s => mul (Fin (nominal_voltage this))
                    (add (Fin 0.8) (div (mul (Fin 0.2) s) (Fin 100)))) SOC in
  let V_terminal := zip_with sub OCV (map (fun i => mul i (Fin (internal_resistance this))) I) in
  let remaining_capacity_Ah :=
    map (fun s => div (mul (Fin (capacity_Ah this)) s) (Fin 100)) SOC in
  let power_W := zip_with mul V_terminal I in
  ret {| time_hours := map (fun ti => div ti (Fin 3600)) t;
         time_seconds := t;
         current_A := I;
         SOC_percent := SOC;
         voltage_V := V_terminal;
         power_W := power_W;
         remaining_capacity_Ah := remaining_capacity_Ah;
         effective_capacity_As := avg_effective_capacity |}.

Close Scope string_scope.

(** ** Console output

    A printed line is kept as the pieces of its f-string: literal text, an
    attribute converted by [str], and a float formatted with [:.2f]. *)
Inductive piece : Type :=
| Text (s : string)
| Str (x : R)
| Fixed2 (x : float64).

Definition line : Type := list piece.

(** What NumPy raises in [print_summary]; the messages are left out. *)
Inductive summary_exn : Type :=
| IndexError          (* index out of bounds *)
| ZeroSizeReduction   (* ValueError: zero-size array to reduction operation *)
| BroadcastError.     (* ValueError: operands could not be broadcast together *)

(** Computations that write lines to the standard output and may raise. *)
Definition Out (A : Type) : Type := list line -> (summary_exn + A) * list line.

Definition out_ret {A} (a : A) : Out A := fun out => (inr a, out).

Definition out_bind {A B} (m : Out A) (k : A -> Out B) : Out B :=
  fun out => match m out with
             | (inl e, out') => (inl e, out')
             | (inr a, out') => k a out'
             end.

Definition out_raise {A} (e : summary_exn) : Out A := fun out => (inl e, out).

Definition print (l : line) : Out unit := fun out => (inr tt, out ++ [l]).

Declare Scope out_scope.
Delimit Scope out_scope with out.
Notation "x <- m ;; k" := (out_bind m (fun x => k))
  (at level 61, m at next level, right associativity) : out_scope.
Notation "m ;; k" := (out_bind m (fun _ => k))
  (at level 61, right associativity) : out_scope.

Open Scope string_scope.

(** The line feed, and the ohm sign in its UTF-8 encoding. *)
Definition newline : string := String (Ascii.ascii_of_nat 10) EmptyString.
Definition ohm_sign : string :=
  String (Ascii.ascii_of_nat 206) (String (Ascii.ascii_of_nat 169) EmptyString).

(** Python's [s * n] on a string. *)
Fixpoint str_mul (s : string) (n : nat) : string :=
  match n with
  | O => EmptyString
  | S n' => append s (str_mul s n')
  end.

(** [np.where(c)[0]]: the indices at which [c] holds, in increasing order. *)
Fixpoint where_from (i : nat) (c : list bool) : list nat :=
  match c with
  | [] => []
  | b :: c' => if b then i :: where_from (S i) c' else where_from (S i) c'
  end.

Definition where_ (c : list bool) : list nat := where_from 0 c.

(** [a[k]] for an index [k >= 0], and [a[-1]], which is [a[len(a) - 1]]. *)
Definition getitem (a : ndarray) (k : nat) : Out float64 :=
  match nth_error a k with
  | Some x => out_ret x
  | None => out_raise IndexError
  end.

Definition getitem_last (a : ndarray) : Out float64 :=
  match length a with
  | O => out_raise IndexError
  | S n => getitem a n
  end.

(** [np.max] and [np.min]: a NaN entry gives NaN, an empty array raises. *)
Definition amax (a : ndarray) : Out float64 :=
  match a with
  | [] => out_raise ZeroSizeReduction
  | x :: a' => out_ret (fold_left maximum a' x)
  end.

Definition amin (a : ndarray) : Out float64 :=
  match a with
  | [] => out_raise ZeroSizeReduction
  | x :: a' => out_ret (fold_left minimum a' x)
  end.

(** Elementwise operation on two one-dimensional arrays under NumPy's
    broadcasting: equal lengths, or one of the two of length one. *)
Definition broadcast (f : float64 -> float64 -> float64) (a b : ndarray)
  : Out ndarray :=
  if (length a =? length b)%nat then out_ret (zip_with f a b)
  else match a, b with
       | [x], _ => out_ret (map (f x) b)
       | _, [y] => out_ret (map (fun x => f x y) a)
       | _, _ => out_raise BroadcastError
       end.

(** [np.trapz(y, x)]: [(d * (y[1:] + y[:-1]) / 2.0).sum()] with
    [d = diff(x)]. *)
Definition trapz (y x : ndarray) : Out float64 :=
  (let d := diff x in
   p <- broadcast mul d (zip_with add (tl y) (removelast y)) ;;
   out_ret (fold_left add (map (fun v => div v (Fin 2)) p) (Fin 0)))%out.

(** [print_summary]; [results] is a dictionary with the keys of
    [discharge_simulation]'s result, its series one-dimensional float arrays
    of any length. *)
Definition print_summary (this : Batterysimulator) (results : SimulationResult)
  : Out unit :=
  (print [Text (newline ++ str_mul "=" 60)] ;;
   print [Text "BATTERY DISCHARGE SIMULATION"] ;;
   print [Text (str_mul "=" 60)] ;;

   let zero_soc := where_ (map (fun s => leb s (Fin 0)) (SOC_percent results)) in
   discharge_time <-
     match zero_soc with
     | k :: _ => getitem (time_hours results) k
     | [] => getitem_last (time_hours results)
     end ;;

   print [Text (newline ++ "Battery Specifications:")] ;;
   print [Text "  - Nominal Capacity: "; Str (capacity_Ah this); Text " Ah"] ;;
   print [Text "  - Initial SOC: "; Str (initial_SOC this); Text "%"] ;;
   print [Text "  - Nominal Voltage: "; Str (nominal_voltage this); Text " V"] ;;

   print [Text (newline ++ "Current Profile Analysis:")] ;;
   print [Text "  - Average Current: "; Fixed2 (mean (current_A results)); Text " A"] ;;
   hi <- amax (current_A results) ;;
   print [Text "  - Max Current: "; Fixed2 hi; Text " A"] ;;
   lo <- amin (current_A results) ;;
   print [Text "  - Min Current: "; Fixed2 lo; Text " A"] ;;

   print [Text (newline ++ "Discharge Performance:")] ;;
   print [Text "  - Time to full discharge: "; Fixed2 discharge_time; Text " hours"] ;;
   print [Text "  - Average Voltage: "; Fixed2 (mean (voltage_V results)); Text " V"] ;;
   energy <- trapz (power_W results) (time_seconds results) ;;
   print [Text "  - Energy Delivered: "; Fixed2 (div energy (Fin 3600)); Text " Wh"] ;;

   print [Text (newline ++ "Physics Parameters Applied:")] ;;
   print [Text "  - Internal Resistance: "; Str (internal_resistance this);
          Text (" " ++ ohm_sign)] ;;
   print [Text "  - Peukert Exponent: "; Str (peukert_exponent this)] ;;
   print [Text "  - Effective Capacity: ";
          Fixed2 (div (effective_capacity_As results) (Fin 3600)); Text " Ah"] ;;
   print [Text (str_mul "=" 60)])%out.

Close Scope string_scope.

(** * Auxiliary definitions *)

(** ** The value of a call

    The pure functions below name the intermediate arrays of
    [discharge_simulation]; the lemma [discharge_simulation_value] proves
    that the method returns exactly the record they build. *)

Definition value_of {A} (m : M A) (w : World) : exn + A := fst (m w).

(** A freshly constructed simulator together with a generator state. *)
Definition new_world (capacity_Ah initial_soc nominal_voltage : R) (g : rng) : World :=
  {| self := __init__ capacity_Ah initial_soc nominal_voltage; random_state := g |}.

Definition supported_profiles : list string :=
  ["constant"; "pulsed"; "ramp"; "random"]%string.

(** The number [peukert_capacity] returns for an object and a current. *)
Definition peukert_value (this : Batterysimulator) (current : float64) : float64 :=
  if leb current (Fin 0) then Fin (capacity_As this)
  else mul (Fin (capacity_As this))
           (py_max (Fin 0.3) (py_min (Fin 2.0)
              (power (div (Fin (capacity_Ah this / 20)) current)
                     (peukert_exponent this - 1)))).

(** The time grid of a call. *)
Definition time_grid (time_hours : R) : ndarray := linspace 0 (time_hours * 3600) 1000.

(** [n] draws of the generator, starting at draw number [off]. *)
Definition draws (g : rng) (off n : nat) : ndarray :=
  map (fun i => Fin (g (off + i)%nat)) (seq 0 n).

(** One sample of the pulsed, ramp and random profiles. *)
Definition pulsed_sample (current_value : R) (ti : float64) : float64 :=
  mul (Fin current_value)
      (add (Fin 0.5) (mul (Fin 0.5)
         (sign (sin (div (mul (Fin (2 * PI)) ti) (Fin 3600)))))).

Definition ramp_sample (time_hours current_value : R) (ti : float64) : float64 :=
  mul (Fin current_value)
      (add (Fin 0.5) (div (mul (Fin 0.5) ti) (Fin (time_hours * 3600)))).

Definition random_sample (current_value : R) (zi : float64) : float64 :=
  mul (Fin current_value) (add (Fin 0.7) (mul (Fin 0.6) zi)).

(** The current series before noise, and the number of draws it used;
    nothing for an unsupported profile. *)
Definition profile_current (time_hours : R) (current_profile : string)
    (current_value : R) (g : rng) : option (ndarray * nat) :=
  let t := time_grid time_hours in
  if (current_profile =? "constant")%string then Some (full_like t current_value, 0%nat)
  else if (current_profile =? "pulsed")%string then
    Some (map (pulsed_sample current_value) t, 0%nat)
  else if (current_profile =? "ramp")%string then
    Some (map (ramp_sample time_hours current_value) t, 0%nat)
  else if (current_profile =? "random")%string then
    Some (clip (map (random_sample current_value) (draws g 0 1000))
               (0.1 * current_value) (2 * current_value), 1000%nat)
  else None.

(** The current series after the noise step. *)
Definition with_noise (current_value : R) (add_noise : bool) (g : rng)
    (I_used : ndarray * nat) : ndarray :=
  if add_noise then
    zip_with add (fst I_used)
      (map (mul (Fin (0.05 * current_value))) (draws g (snd I_used) 1000))
  else fst I_used.

(** The series computed from the object, the time grid and the currents. *)
Definition avg_capacity (this : Batterysimulator) (I : ndarray) : float64 :=
  mean (map (peukert_value this) I).

Definition soc_raw (this : Batterysimulator) (avg q : float64) : float64 :=
  sub (Fin (initial_SOC this)) (mul (div q avg) (Fin 100)).

Definition soc_series (this : Batterysimulator) (t I : ndarray) : ndarray :=
  clip (map (soc_raw this (avg_capacity this I)) (cumulative_trapezoid I t)) 0 100.

Definition voltage_series (this : Batterysimulator) (SOC I : ndarray) : ndarray :=
  zip_with sub
    (map (fun s => mul (Fin (nominal_voltage this))
                     (add (Fin 0.8) (div (mul (Fin 0.2) s) (Fin 100)))) SOC)
    (map (fun i => mul i (Fin (internal_resistance this))) I).

Definition result_of (this : Batterysimulator) (t I : ndarray) : SimulationResult :=
  let SOC := soc_series this t I in
  let V := voltage_series this SOC I in
  {| time_hours := map (fun ti => div ti (Fin 3600)) t;
     time_seconds := t;
     current_A := I;
     SOC_percent := SOC;
     voltage_V := V;
     power_W := zip_with mul V I;
     remaining_capacity_Ah :=
       map (fun s => div (mul (Fin (capacity_Ah this)) s) (Fin 100)) SOC;
     effective_capacity_As := avg_capacity this I |}.

(** The increments [d * (y[1:] + y[:-1]) / 2.0] that
    [cumulative_trapezoid] sums. *)
Definition trapezoid_increments (y x : ndarray) : ndarray :=
  map (fun v => div v (Fin 2))
      (zip_with mul (diff x) (zip_with add (tl y) (removelast y))).

(** ** Reference definitions, from the specification's words *)

(** The effective capacity: with [I_ref = capacity_Ah / 20], the nominal
    capacity for [I <= 0], and otherwise
    [capacity_As * clamp((I_ref / I)^(peukert_exponent - 1), 0.3, 2.0)]. *)
Definition clamp (x lo hi : R) : R := Rmax lo (Rmin hi x).

(** [x^y] for a base [x >= 0] and an exponent [y > 0]. *)
Definition real_power (x y : R) : R := if Req_dec_T x 0 then 0 else Rpower x y.

Definition peukert_reference (this : Batterysimulator) (I : R) : R :=
  let I_ref := capacity_Ah this / 20 in
  if Rle_dec I 0 then capacity_As this
  else capacity_As this * clamp (real_power (I_ref / I) (peukert_exponent this - 1)) 0.3 2.0.

(** The recomputation of the state of charge from a result: the
    discharged charge starts at zero and grows, from each sample to the
    next, by the area of the trapezoid under the current; the state of
    charge is [initial_soc - (Q / avg_effective_capacity) * 100], clamped
    to [0, 100]. *)
Fixpoint charge_from (q : float64) (I t : ndarray) : ndarray :=
  match I, t with
  | i0 :: I', t0 :: t' =>
      match I', t' with
      | i1 :: _, t1 :: _ =>
          let q' := add q (div (mul (sub t1 t0) (add i0 i1)) (Fin 2)) in
          q' :: charge_from q' I' t'
      | _, _ => []
      end
  | _, _ => []
  end.

Definition discharged_charge (I t : ndarray) : ndarray :=
  Fin 0 :: charge_from (Fin 0) I t.

Definition clamp_percent (x : float64) : float64 :=
  if ltb x (Fin 0) then Fin 0 else if ltb (Fin 100) x then Fin 100 else x.

Definition recomputed_SOC (initial_soc : R) (t I : ndarray) (avg : float64) : ndarray :=
  map (fun q => clamp_percent (sub (Fin initial_soc) (mul (div q avg) (Fin 100))))
      (discharged_charge I t).

(** ** Predicates *)

(** A computation that leaves the simulator object as it found it. *)
Definition preserves_self {A} (m : M A) : Prop :=
  forall w, self (snd (m w)) = self w.

(** A number within [0, 100]. *)
Definition in_percent_range (soc : float64) : Prop :=
  exists x, soc = Fin x /\ 0 <= x <= 100.

(** The number [k] times a factor between 0.3 and 2.0. *)
Definition scaled_factor (k : R) (v : float64) : Prop :=
  exists f, v = Fin (k * f) /\ 0.3 <= f <= 2.0.

Definition is_zero (a : float64) : Prop := a = Fin 0.

Definition is_nan (a : float64) : Prop := a = NaN.

Definition nonneg (a : float64) : Prop := exists x, a = Fin x /\ 0 <= x.

(** Both finite, and in order. *)
Definition le_fin (a b : float64) : Prop :=
  exists x y, a = Fin x /\ b = Fin y /\ x <= y.

(** The distance a sample time keeps from a switching instant of the
    pulsed profile for the sign of its sine to be beyond the reach of
    rounding: a nanosecond, and as much again for each second of [t]. *)
Definition guard_band (t : R) : R := 1e-9 * (1 + Rabs t).

(** ** The generator after a call *)

(** The state once the next [n] draws are consumed. *)
Definition advance (n : nat) (w : World) : World :=
  {| self := self w; random_state := fun k => random_state w (n + k)%nat |}.

(** The number of [randn] calls of a simulation: one for the random
    profile, one for the noise. *)
Definition randn_calls (current_profile : string) (add_noise : bool) : nat :=
  ((if (current_profile =? "random")%string then 1 else 0)
   + (if add_noise then 1 else 0))%nat.


(** ** The output of [print_summary] *)

(** The lines a computation prints on an empty console, and how it ends. *)
Definition printed {A} (m : Out A) : list line := snd (m []).
Definition outcome {A} (m : Out A) : summary_exn + A := fst (m []).

(** The samples at which the state of charge has reached zero: [k] is the
    first of them, or there is none. *)
Definition depleted (s : float64) : bool := leb s (Fin 0).

Definition first_depleted (soc : ndarray) (k : nat) : Prop :=
  (exists s, nth_error soc k = Some s /\ depleted s = true) /\
  forall j s, (j < k)%nat -> nth_error soc j = Some s -> depleted s = false.

Definition never_depleted (soc : ndarray) : Prop :=
  Forall (fun s => depleted s = false) soc.

(** The line [print_summary] prints for the discharge time. *)
Definition discharge_time_line (dt : float64) : line :=
  [Text "  - Time to full discharge: "%string; Fixed2 dt; Text " hours"%string].

(** * Properties *)

(** ** Scalar arithmetic *)

Ltac real_cases :=
  repeat match goal with
  | |- context [Rlt_dec ?a ?b] => destruct (Rlt_dec a b)
  | |- context [Rle_dec ?a ?b] => destruct (Rle_dec a b)
  | |- context [Req_dec_T ?a ?b] => destruct (Req_dec_T a b)
  end.

Lemma finite_inv (a : float64) : finite a -> exists x, a = Fin x.
Proof. destruct a; simpl; intros H; try contradiction. now exists x. Qed.

Lemma div_Fin (x y : R) : y <> 0 -> div (Fin x) (Fin y) = Fin (x / y).
Proof. intros Hy. unfold div. destruct (Req_dec_T y 0); [contradiction | reflexivity]. Qed.

Lemma div_zero_zero (x y : R) : x = 0 -> y = 0 -> div (Fin x) (Fin y) = NaN.
Proof.
  intros -> ->. unfold div, inf_of_sign. real_cases; try lra; reflexivity.
Qed.

Lemma add_zero_l (a : float64) : add (Fin 0) a = a.
Proof. destruct a; simpl; try reflexivity. now rewrite Rplus_0_l. Qed.

Lemma leb_Fin (x y : R) : leb (Fin x) (Fin y) = true <-> x <= y.
Proof. simpl. destruct (Rle_dec x y); split; intros; try discriminate; auto; contradiction. Qed.

Lemma leb_Fin_false (x y : R) : leb (Fin x) (Fin y) = false <-> y < x.
Proof.
  simpl. destruct (Rle_dec x y); split; intros; try discriminate; auto; lra.
Qed.

(** [np.clip] of a finite sample between finite ordered bounds. *)
Lemma clip1_Fin (lo hi x : R) :
  lo <= hi -> clip1 (Fin lo) (Fin hi) (Fin x) = Fin (Rmin (Rmax x lo) hi).
Proof.
  intros Hb. unfold clip1, maximum, minimum, ltb, Rmax, Rmin.
  destruct (Rlt_dec x lo), (Rle_dec x lo); try lra;
    real_cases; try lra; try reflexivity; f_equal; lra.
Qed.

Lemma clamp_bounds (lo hi x : R) : lo <= hi -> lo <= Rmin (Rmax x lo) hi <= hi.
Proof.
  intros Hb. unfold Rmin, Rmax. real_cases; lra.
Qed.

(** Python's [max(0.3, min(2.0, f))] is a number between 0.3 and 2.0
    whatever [f] is, NaN and the infinities included. *)
Lemma py_clamp_range (f : float64) :
  exists x, py_max (Fin 0.3) (py_min (Fin 2.0) f) = Fin x /\ 0.3 <= x <= 2.0.
Proof.
  destruct f as [y | | |]; unfold py_max, py_min, ltb.
  - destruct (Rlt_dec y 2.0); destruct (Rlt_dec 0.3 _);
      eexists; (split; [reflexivity | lra]).
  - destruct (Rlt_dec 0.3 2.0); eexists; (split; [reflexivity | lra]).
  - exists 0.3. split; [reflexivity | lra].
  - destruct (Rlt_dec 0.3 2.0); eexists; (split; [reflexivity | lra]).
Qed.

Lemma py_clamp_Fin (y : R) :
  py_max (Fin 0.3) (py_min (Fin 2.0) (Fin y)) = Fin (Rmax 0.3 (Rmin 2.0 y)).
Proof.
  unfold py_max, py_min, ltb, Rmax, Rmin.
  destruct (Rlt_dec y 2.0), (Rle_dec 2.0 y); try lra;
    real_cases; try lra; try reflexivity; f_equal; lra.
Qed.

(** ** The state monad: what a computation returns *)

Lemma peukert_capacity_run (current : float64) (w : World) :
  peukert_capacity current w = (inr (peukert_value (self w) current), w).
Proof.
  unfold peukert_capacity, peukert_value, bind, get_self, ret.
  destruct (leb current (Fin 0)); reflexivity.
Qed.

Lemma mapM_peukert_capacity_run (I : ndarray) (w : World) :
  mapM peukert_capacity I w = (inr (map (peukert_value (self w)) I), w).
Proof.
  induction I as [| c I IH]; [reflexivity |].
  cbn [mapM map]. unfold bind at 1. rewrite peukert_capacity_run.
  unfold bind at 1. rewrite IH. reflexivity.
Qed.

(** Every effective capacity is the nominal capacity times a factor
    between 0.3 and 2.0. *)
Lemma peukert_value_factor (this : Batterysimulator) (current : float64) :
  exists f, peukert_value this current = Fin (capacity_As this * f) /\ 0.3 <= f <= 2.0.
Proof.
  unfold peukert_value. destruct (leb current (Fin 0)).
  - exists 1. split; [f_equal; lra | lra].
  - destruct (py_clamp_range
                (power (div (Fin (capacity_Ah this / 20)) current)
                       (peukert_exponent this - 1))) as [x [-> Hx]].
    exists x. split; [reflexivity | exact Hx].
Qed.

(** ** Arrays: shapes *)

Lemma length_zip_with f (a b : ndarray) :
  length (zip_with f a b) = Nat.min (length a) (length b).
Proof. unfold zip_with. now rewrite length_map, length_combine. Qed.

Lemma length_removelast {A} (l : list A) : length (removelast l) = (length l - 1)%nat.
Proof. rewrite removelast_firstn_len, length_firstn. lia. Qed.

Lemma length_diff (x : ndarray) : length (diff x) = (length x - 1)%nat.
Proof.
  unfold diff. rewrite length_zip_with, length_tl, length_removelast. lia.
Qed.

Lemma length_cumsum_from (acc : float64) (a : ndarray) :
  length (cumsum_from acc a) = length a.
Proof.
  revert acc. induction a as [| v a IH]; intros acc; [reflexivity |].
  cbn [cumsum_from length]. now rewrite IH.
Qed.

Lemma length_cumsum (a : ndarray) : length (cumsum a) = length a.
Proof. destruct a; [reflexivity |]. cbn [cumsum length]. now rewrite length_cumsum_from. Qed.

Lemma length_cumulative_trapezoid (y x : ndarray) :
  length y = length x -> (0 < length x)%nat ->
  length (cumulative_trapezoid y x) = length x.
Proof.
  intros Hyx Hx. unfold cumulative_trapezoid. cbn [length].
  rewrite length_cumsum, length_map, !length_zip_with, length_diff,
    length_tl, length_removelast.
  lia.
Qed.

Lemma length_full_like (a : ndarray) (v : R) : length (full_like a v) = length a.
Proof. apply length_map. Qed.

Lemma length_clip (a : ndarray) (lo hi : R) : length (clip a lo hi) = length a.
Proof. apply length_map. Qed.

Lemma firstn_seq_pred (num : nat) :
  (0 < num)%nat -> firstn (num - 1) (seq 0 num) = seq 0 (num - 1).
Proof.
  intros Hn. replace num with (S (num - 1)) at 2 by lia.
  rewrite seq_S, firstn_app, length_seq.
  replace (num - 1 - (num - 1))%nat with 0%nat by lia.
  rewrite firstn_O, app_nil_r.
  rewrite <- (length_seq (num - 1) 0) at 1. apply firstn_all.
Qed.

(** In exact arithmetic the samples of [linspace] are evenly spaced. *)
Lemma linspace_eq (start stop : R) (num : nat) :
  (1 < num)%nat ->
  linspace start stop num =
  map (fun i : nat => Fin (start + INR i * ((stop - start) / INR (num - 1))))
      (seq 0 num).
Proof.
  intros Hn. unfold linspace.
  assert (Hd : INR (num - 1) <> 0) by (apply not_0_INR; lia).
  replace (1 <? num)%nat with true by (symmetry; apply Nat.ltb_lt; exact Hn).
  rewrite firstn_map, firstn_seq_pred by lia.
  assert (Hs : seq 0 num = seq 0 (num - 1) ++ [(num - 1)%nat]).
  { replace num with (S (num - 1)) at 1 by lia. rewrite seq_S. reflexivity. }
  rewrite Hs, !map_app, map_map. cbn [map]. f_equal.
  - apply map_ext. intros i. f_equal.
    destruct (Req_dec_T ((stop - start) / INR (num - 1)) 0); field; exact Hd.
  - do 2 f_equal. field. exact Hd.
Qed.

Lemma length_linspace (start stop : R) (num : nat) :
  length (linspace start stop num) = num.
Proof.
  unfold linspace. rewrite length_map.
  destruct (1 <? num)%nat eqn:Hn.
  - apply Nat.ltb_lt in Hn.
    rewrite length_app, length_firstn, length_map, length_seq. cbn [length]. lia.
  - now rewrite length_map, length_seq.
Qed.

(** ** What a simulation call returns *)

Lemma randn_run (n : nat) (w : World) :
  randn n w = (inr (draws (random_state w) 0 n),
               {| self := self w; random_state := fun k => random_state w (n + k)%nat |}).
Proof. reflexivity. Qed.

(** A call raises [ValueError] for an unsupported profile, and otherwise
    returns the record computed from the synthesised currents. *)
Lemma discharge_simulation_value (th : R) (p : string) (cv : R) (noise : bool) (w : World) :
  value_of (discharge_simulation th p cv noise) w =
  match profile_current th p cv (random_state w) with
  | None => inl (ValueError "Invalid current profile.")
  | Some Iu =>
      inr (result_of (self w) (time_grid th) (with_noise cv noise (random_state w) Iu))
  end.
Proof.
  unfold value_of, discharge_simulation, profile_current, with_noise, time_grid.
  rewrite !length_linspace.
  unfold bind at 1. unfold get_self at 1.
  unfold result_of, soc_series, voltage_series, avg_capacity, soc_raw,
    pulsed_sample, ramp_sample, random_sample.
  destruct (p =? "constant")%string; [| destruct (p =? "pulsed")%string;
    [| destruct (p =? "ramp")%string; [| destruct (p =? "random")%string]]];
    destruct noise;
    cbv beta iota delta [bind ret raise];
    rewrite ?randn_run; cbv beta iota;
    rewrite ?randn_run; cbv beta iota;
    rewrite ?mapM_peukert_capacity_run;
    cbv beta iota delta [fst snd self random_state]; reflexivity.
Qed.

Lemma profile_current_supported (th : R) (p : string) (cv : R) (g : rng) :
  match profile_current th p cv g with
  | Some _ => In p supported_profiles
  | None => ~ In p supported_profiles
  end.
Proof.
  unfold profile_current, supported_profiles.
  destruct (String.eqb_spec p "constant"); [cbn [In]; auto |].
  destruct (String.eqb_spec p "pulsed"); [cbn [In]; auto |].
  destruct (String.eqb_spec p "ramp"); [cbn [In]; auto |].
  destruct (String.eqb_spec p "random"); [cbn [In]; auto |].
  cbn [In]. intros [H | [H | [H | [H | []]]]]; congruence.
Qed.

Lemma length_draws (g : rng) (off n : nat) : length (draws g off n) = n.
Proof. unfold draws. now rewrite length_map, length_seq. Qed.

Lemma length_time_grid (th : R) : length (time_grid th) = 1000%nat.
Proof. apply length_linspace. Qed.

Lemma length_profile_current (th : R) (p : string) (cv : R) (g : rng) :
  match profile_current th p cv g with
  | Some Iu => length (fst Iu) = 1000%nat
  | None => True
  end.
Proof.
  unfold profile_current. cbv zeta.
  destruct (p =? "constant")%string; [| destruct (p =? "pulsed")%string;
    [| destruct (p =? "ramp")%string; [| destruct (p =? "random")%string]]];
    cbv beta iota delta [fst]; trivial;
    rewrite ?length_full_like, ?length_clip, ?length_map;
    first [apply length_time_grid | apply length_draws].
Qed.

Lemma length_with_noise (cv : R) (noise : bool) (g : rng) Iu :
  length (fst Iu) = 1000%nat -> length (with_noise cv noise g Iu) = 1000%nat.
Proof.
  intros H. unfold with_noise. destruct noise; [| exact H].
  rewrite length_zip_with, length_map, length_draws, H. apply Nat.min_id.
Qed.

Lemma length_soc_series (this : Batterysimulator) (t I : ndarray) :
  length I = length t -> (0 < length t)%nat -> length (soc_series this t I) = length t.
Proof.
  intros HI Ht. unfold soc_series.
  now rewrite length_clip, length_map, length_cumulative_trapezoid.
Qed.

Lemma length_voltage_series (this : Batterysimulator) (SOC I : ndarray) :
  length SOC = length I -> length (voltage_series this SOC I) = length I.
Proof.
  intros H. unfold voltage_series. rewrite length_zip_with, !length_map, H.
  apply Nat.min_id.
Qed.

(** ** The object is only read *)

Lemma preserves_ret {A} (a : A) : preserves_self (ret a).
Proof. intros w. reflexivity. Qed.

Lemma preserves_raise {A} (e : exn) : preserves_self (@raise A e).
Proof. intros w. reflexivity. Qed.

Lemma preserves_get_self : preserves_self get_self.
Proof. intros w. reflexivity. Qed.

Lemma preserves_randn (n : nat) : preserves_self (randn n).
Proof. intros w. reflexivity. Qed.

Lemma preserves_bind {A B} (m : M A) (k : A -> M B) :
  preserves_self m -> (forall a, preserves_self (k a)) -> preserves_self (bind m k).
Proof.
  intros Hm Hk w. unfold bind. specialize (Hm w).
  destruct (m w) as [[e | a] w']; cbn [snd] in *; [exact Hm |].
  rewrite (Hk a w'). exact Hm.
Qed.

Lemma preserves_if {A} (b : bool) (m1 m2 : M A) :
  preserves_self m1 -> preserves_self m2 -> preserves_self (if b then m1 else m2).
Proof. destruct b; auto. Qed.

Lemma preserves_mapM {A B} (f : A -> M B) (l : list A) :
  (forall a, preserves_self (f a)) -> preserves_self (mapM f l).
Proof.
  intros Hf. induction l as [| a l IH]; cbn [mapM].
  - apply preserves_ret.
  - apply preserves_bind; [apply Hf |]. intros b.
    apply preserves_bind; [exact IH |]. intros bs. apply preserves_ret.
Qed.

Lemma preserves_peukert_capacity (current : float64) :
  preserves_self (peukert_capacity current).
Proof.
  unfold peukert_capacity. apply preserves_bind; [apply preserves_get_self |].
  intros this. apply preserves_if; apply preserves_ret.
Qed.

Lemma preserves_discharge_simulation (th : R) (p : string) (cv : R) (noise : bool) :
  preserves_self (discharge_simulation th p cv noise).
Proof.
  unfold discharge_simulation.
  apply preserves_bind; [apply preserves_get_self |]. intros this.
  apply preserves_bind.
  - repeat (apply preserves_if; [apply preserves_ret |]).
    apply preserves_if; [| apply preserves_raise].
    apply preserves_bind; [apply preserves_randn |]. intros z. apply preserves_ret.
  - intros I. apply preserves_bind.
    + apply preserves_if; [| apply preserves_ret].
      apply preserves_bind; [apply preserves_randn |]. intros z. apply preserves_ret.
    + intros I'. apply preserves_bind.
      * apply preserves_mapM. apply preserves_peukert_capacity.
      * intros caps. apply preserves_ret.
Qed.

(** ** The shapes of a result *)

Lemma result_lengths (th : R) (p : string) (cv : R) (noise : bool) (w : World) :
  match value_of (discharge_simulation th p cv noise) w with
  | inr r =>
      length (time_seconds r) = 1000%nat /\
      length (time_hours r) = length (time_seconds r) /\
      length (current_A r) = length (time_seconds r) /\
      length (SOC_percent r) = length (time_seconds r) /\
      length (voltage_V r) = length (time_seconds r) /\
      length (power_W r) = length (time_seconds r) /\
      length (remaining_capacity_Ah r) = length (time_seconds r)
  | inl _ => ~ In p supported_profiles
  end.
Proof.
  rewrite discharge_simulation_value.
  pose proof (profile_current_supported th p cv (random_state w)) as Hs.
  pose proof (length_profile_current th p cv (random_state w)) as HI.
  destruct (profile_current th p cv (random_state w)) as [Iu |]; [| exact Hs].
  pose proof (length_with_noise cv noise (random_state w) Iu HI) as HL.
  pose proof (length_time_grid th) as Ht.
  assert (Hsoc : length (soc_series (self w) (time_grid th)
                   (with_noise cv noise (random_state w) Iu)) = 1000%nat).
  { rewrite length_soc_series; rewrite ?Ht, ?HL; auto; lia. }
  assert (Hv : length (voltage_series (self w)
                 (soc_series (self w) (time_grid th)
                    (with_noise cv noise (random_state w) Iu))
                 (with_noise cv noise (random_state w) Iu)) = 1000%nat).
  { rewrite length_voltage_series; rewrite ?Hsoc, ?HL; auto. }
  unfold result_of.
  cbv beta iota zeta delta [time_seconds time_hours current_A SOC_percent
    voltage_V power_W remaining_capacity_Ah].
  rewrite Ht, HL, Hsoc, Hv, length_zip_with, !length_map, Ht, Hsoc, Hv, HL.
  rewrite Nat.min_id. repeat split; reflexivity.
Qed.

(** ** The effective capacity against its reference definition *)

Lemma clamp_range (x : R) : 0.3 <= clamp x 0.3 2.0 <= 2.0.
Proof. unfold clamp, Rmax, Rmin. real_cases; lra. Qed.

Lemma power_nonneg_base (x y : R) :
  0 <= x -> 0 < y -> power (Fin x) y = Fin (real_power x y).
Proof.
  intros Hx Hy. unfold power, real_power.
  destruct (Req_dec_T y 0); [lra |].
  destruct (Rlt_dec 0 x), (Req_dec_T x 0); try lra; try reflexivity.
  destruct (Rlt_dec 0 y); [reflexivity | lra].
Qed.

Lemma peukert_value_reference (this : Batterysimulator) (I : R) :
  0 <= capacity_Ah this -> 1 < peukert_exponent this ->
  peukert_value this (Fin I) = Fin (peukert_reference this I).
Proof.
  intros Hc Hk. unfold peukert_value, peukert_reference, leb.
  destruct (Rle_dec I 0) as [HI | HI]; [reflexivity |].
  rewrite div_Fin by lra.
  rewrite power_nonneg_base.
  - rewrite py_clamp_Fin. reflexivity.
  - apply Rmult_le_pos; [lra |]. left. apply Rinv_0_lt_compat. lra.
  - lra.
Qed.

Lemma peukert_reference_interval (this : Batterysimulator) (I : R) :
  0 <= capacity_As this ->
  0.3 * capacity_As this <= peukert_reference this I <= 2.0 * capacity_As this.
Proof.
  intros Hc. unfold peukert_reference.
  destruct (Rle_dec I 0); [lra |].
  pose proof (clamp_range (real_power (capacity_Ah this / 20 / I)
                             (peukert_exponent this - 1))) as Hf.
  nra.
Qed.

(** At the 20-hour rate ([I = I_ref]) the factor is 1: a 10 Ah battery
    drained at 0.5 A has its nominal 36000 As. *)
Example peukert_capacity_at_reference_rate (g : rng) :
  value_of (peukert_capacity (Fin 0.5)) (new_world 10 100 12 g) = inr (Fin 36000).
Proof.
  unfold value_of. rewrite peukert_capacity_run. cbn [fst].
  unfold new_world. cbn [self].
  rewrite peukert_value_reference by (unfold __init__; cbn; lra).
  unfold peukert_reference, __init__. cbn [capacity_Ah capacity_As peukert_exponent].
  destruct (Rle_dec 0.5 0); [lra |].
  replace (10 / 20 / 0.5) with 1 by lra.
  unfold real_power. destruct (Req_dec_T 1 0); [lra |].
  unfold Rpower. rewrite ln_1, Rmult_0_r, exp_0.
  unfold clamp. rewrite Rmin_right, Rmax_right by lra. do 2 f_equal. lra.
Qed.

(** ** The mean effective capacity *)

Lemma fold_add_scaled (k : R) (l : list float64) (a : R) :
  Forall (scaled_factor k) l ->
  exists F, fold_left add l (Fin a) = Fin (a + k * F) /\
            0.3 * INR (length l) <= F <= 2.0 * INR (length l).
Proof.
  intros Hl. revert a. induction Hl as [| v l [f [-> Hf]] _ IH]; intros a.
  - exists 0. cbn [fold_left length INR]. split; [f_equal; lra | lra].
  - cbn [fold_left add]. destruct (IH (a + k * f)) as [F [-> HF]].
    exists (f + F). cbn [length]. rewrite S_INR.
    split; [f_equal; lra | lra].
Qed.

Lemma mean_scaled (k : R) (l : list float64) :
  (0 < length l)%nat -> Forall (scaled_factor k) l -> scaled_factor k (mean l).
Proof.
  intros Hn Hl. unfold mean.
  destruct (fold_add_scaled k l 0 Hl) as [F [-> HF]].
  assert (Hpos : 0 < INR (length l)) by (apply lt_0_INR; exact Hn).
  rewrite div_Fin by lra.
  exists (F / INR (length l)). split.
  - f_equal. field. lra.
  - split.
    + apply Rmult_le_reg_r with (INR (length l)); [exact Hpos |].
      unfold Rdiv. rewrite Rmult_assoc, Rinv_l by lra. lra.
    + apply Rmult_le_reg_r with (INR (length l)); [exact Hpos |].
      unfold Rdiv. rewrite Rmult_assoc, Rinv_l by lra. lra.
Qed.

Lemma avg_capacity_scaled (this : Batterysimulator) (I : list float64) :
  (0 < length I)%nat -> scaled_factor (capacity_As this) (avg_capacity this I).
Proof.
  intros Hn. unfold avg_capacity. apply mean_scaled.
  - now rewrite length_map.
  - apply Forall_map, Forall_forall. intros c _. apply peukert_value_factor.
Qed.

Lemma scaled_factor_pos (k : R) (v : float64) :
  0 < k -> scaled_factor k v -> exists x, v = Fin x /\ 0 < x.
Proof. intros Hk [f [-> Hf]]. exists (k * f). split; [reflexivity | nra]. Qed.

Lemma scaled_factor_nonzero (k : R) (v : float64) :
  k <> 0 -> scaled_factor k v -> exists x, v = Fin x /\ x <> 0.
Proof. intros Hk [f [-> Hf]]. exists (k * f). split; [reflexivity | nra]. Qed.

(** ** Finite samples *)

Lemma finite_add (a b : float64) : finite a -> finite b -> finite (add a b).
Proof. destruct a, b; simpl; tauto. Qed.

Lemma finite_sub (a b : float64) : finite a -> finite b -> finite (sub a b).
Proof. destruct a, b; simpl; tauto. Qed.

Lemma finite_mul (a b : float64) : finite a -> finite b -> finite (mul a b).
Proof. destruct a, b; simpl; tauto. Qed.

Lemma finite_div (a : float64) (y : R) : finite a -> y <> 0 -> finite (div a (Fin y)).
Proof.
  destruct a; simpl; try tauto. intros _ Hy.
  destruct (Req_dec_T y 0); [contradiction | exact I].
Qed.

Lemma finite_sign (a : float64) : finite a -> finite (sign a).
Proof. destruct a; simpl; try tauto. intros _. real_cases; exact I. Qed.

Lemma finite_sin (a : float64) : finite a -> finite (sin a).
Proof. destruct a; simpl; tauto. Qed.

Lemma finite_clip1 (lo hi : R) (a : float64) :
  finite a -> finite (clip1 (Fin lo) (Fin hi) a).
Proof.
  destruct a as [x | | |]; simpl; try tauto. intros _.
  unfold clip1, maximum, minimum, ltb. real_cases; exact I.
Qed.

Lemma Forall_zip_with (P Q S : float64 -> Prop) f (a b : list float64) :
  (forall u v, P u -> Q v -> S (f u v)) ->
  Forall P a -> Forall Q b -> Forall S (zip_with f a b).
Proof.
  intros Hf Ha. revert b. unfold zip_with.
  induction Ha as [| u a Hu _ IH]; intros b Hb; [constructor |].
  destruct Hb as [| v b Hv Hb]; cbn [combine map]; constructor.
  - apply Hf; assumption.
  - apply IH, Hb.
Qed.

Lemma Forall_tl {A} (P : A -> Prop) (l : list A) : Forall P l -> Forall P (tl l).
Proof. intros [| x l' _ H]; [constructor | exact H]. Qed.

Lemma Forall_removelast {A} (P : A -> Prop) (l : list A) :
  Forall P l -> Forall P (removelast l).
Proof.
  induction 1 as [| x l Hx Hl IH]; [constructor |].
  cbn [removelast]. destruct l; [constructor |]. constructor; assumption.
Qed.

Lemma Forall_cumsum_from (P : float64 -> Prop) (acc : float64) (a : list float64) :
  (forall u v, P u -> P v -> P (add u v)) ->
  P acc -> Forall P a -> Forall P (cumsum_from acc a).
Proof.
  intros Hadd Hacc Ha. revert acc Hacc.
  induction Ha as [| v a Hv _ IH]; intros acc Hacc; cbn [cumsum_from]; constructor.
  - now apply Hadd.
  - apply IH. now apply Hadd.
Qed.

Lemma Forall_cumsum (P : float64 -> Prop) (a : list float64) :
  (forall u v, P u -> P v -> P (add u v)) -> Forall P a -> Forall P (cumsum a).
Proof.
  intros Hadd [| v a' Hv Ha]; cbn [cumsum]; constructor; [exact Hv |].
  now apply Forall_cumsum_from.
Qed.

Lemma cumulative_trapezoid_increments (y x : list float64) :
  cumulative_trapezoid y x = Fin 0 :: cumsum (trapezoid_increments y x).
Proof. reflexivity. Qed.

Lemma Forall_trapezoid_increments (D Q S : float64 -> Prop) (y x : list float64) :
  (forall d u v, D d -> Q u -> Q v -> S (div (mul d (add u v)) (Fin 2))) ->
  Forall D (diff x) -> Forall Q y -> Forall S (trapezoid_increments y x).
Proof.
  intros Hterm Hd Hy. unfold trapezoid_increments. apply Forall_map.
  apply Forall_zip_with
    with (P := D) (Q := fun s => forall d, D d -> S (div (mul d s) (Fin 2))).
  - intros d s Hd' Hs. now apply Hs.
  - exact Hd.
  - apply Forall_zip_with with (P := Q) (Q := Q).
    + intros u v Hu Hv d Hd'. now apply Hterm.
    + now apply Forall_tl.
    + now apply Forall_removelast.
Qed.

Lemma finite_diff (x : list float64) : Forall finite x -> Forall finite (diff x).
Proof.
  intros Hx. unfold diff. apply Forall_zip_with with (P := finite) (Q := finite).
  - apply finite_sub.
  - now apply Forall_tl.
  - now apply Forall_removelast.
Qed.

Lemma finite_cumulative_trapezoid (y x : list float64) :
  Forall finite x -> Forall finite y -> Forall finite (cumulative_trapezoid y x).
Proof.
  intros Hx Hy. rewrite cumulative_trapezoid_increments.
  constructor; [exact I |].
  apply Forall_cumsum; [apply finite_add |].
  apply Forall_trapezoid_increments with (D := finite) (Q := finite).
  - intros d u v Hd Hu Hv. apply finite_div; [| lra].
    apply finite_mul; [exact Hd | now apply finite_add].
  - now apply finite_diff.
  - exact Hy.
Qed.

Lemma finite_time_grid (th : R) : Forall finite (time_grid th).
Proof.
  unfold time_grid, linspace. apply Forall_map, Forall_forall. intros x _. exact I.
Qed.

Lemma finite_draws (g : rng) (off n : nat) : Forall finite (draws g off n).
Proof. unfold draws. apply Forall_map, Forall_forall. intros x _. exact I. Qed.

Lemma finite_pulsed_sample (cv : R) (ti : float64) :
  finite ti -> finite (pulsed_sample cv ti).
Proof.
  intros Ht. unfold pulsed_sample.
  apply finite_mul; [exact I |]. apply finite_add; [exact I |].
  apply finite_mul; [exact I |]. apply finite_sign, finite_sin.
  apply finite_div; [| lra]. apply finite_mul; [exact I | exact Ht].
Qed.

Lemma finite_ramp_sample (th cv : R) (ti : float64) :
  th <> 0 -> finite ti -> finite (ramp_sample th cv ti).
Proof.
  intros Hth Ht. unfold ramp_sample.
  apply finite_mul; [exact I |]. apply finite_add; [exact I |].
  apply finite_div; [| lra]. apply finite_mul; [exact I | exact Ht].
Qed.

Lemma finite_random_sample (cv : R) (zi : float64) :
  finite zi -> finite (random_sample cv zi).
Proof.
  intros Hz. unfold random_sample.
  apply finite_mul; [exact I |]. apply finite_add; [exact I |].
  apply finite_mul; [exact I | exact Hz].
Qed.

(** With a horizon other than zero every synthesised current is finite. *)
Lemma finite_profile_current (th : R) (p : string) (cv : R) (g : rng) :
  th <> 0 ->
  match profile_current th p cv g with
  | Some Iu => Forall finite (fst Iu)
  | None => True
  end.
Proof.
  intros Hth. unfold profile_current. cbv zeta.
  pose proof (finite_time_grid th) as Ht.
  destruct (p =? "constant")%string; [| destruct (p =? "pulsed")%string;
    [| destruct (p =? "ramp")%string; [| destruct (p =? "random")%string]]];
    cbv beta iota delta [fst]; trivial.
  - unfold full_like. apply Forall_map, Forall_forall. intros x _. exact I.
  - apply Forall_map. revert Ht. apply Forall_impl. apply finite_pulsed_sample.
  - apply Forall_map. revert Ht. apply Forall_impl.
    intros ti. now apply finite_ramp_sample.
  - unfold clip. apply Forall_map, Forall_map.
    generalize (finite_draws g 0 1000). apply Forall_impl.
    intros z Hz. now apply finite_clip1, finite_random_sample.
Qed.

Lemma finite_with_noise (cv : R) (noise : bool) (g : rng) (Iu : list float64 * nat) :
  Forall finite (fst Iu) -> Forall finite (with_noise cv noise g Iu).
Proof.
  intros HI. unfold with_noise. destruct noise; [| exact HI].
  apply Forall_zip_with with (P := finite) (Q := finite).
  - apply finite_add.
  - exact HI.
  - apply Forall_map. generalize (finite_draws g (snd Iu) 1000). apply Forall_impl.
    intros z Hz. now apply finite_mul.
Qed.

(** ** The state of charge *)

Lemma soc_sample_Fin (this : Batterysimulator) (a q : R) :
  a <> 0 ->
  clip1 (Fin 0) (Fin 100) (soc_raw this (Fin a) (Fin q)) =
  Fin (Rmin (Rmax (initial_SOC this - q / a * 100) 0) 100).
Proof.
  intros Ha. unfold soc_raw. rewrite div_Fin by exact Ha.
  cbn [mul sub]. apply clip1_Fin. lra.
Qed.

Lemma soc_series_in_range (this : Batterysimulator) (t I : list float64) (a : R) :
  avg_capacity this I = Fin a -> a <> 0 ->
  Forall finite t -> Forall finite I ->
  Forall in_percent_range (soc_series this t I).
Proof.
  intros Havg Ha Ht HI. unfold soc_series, clip. rewrite Havg.
  apply Forall_map, Forall_map.
  generalize (finite_cumulative_trapezoid I t Ht HI). apply Forall_impl.
  intros q Hq. destruct (finite_inv q Hq) as [x ->].
  rewrite soc_sample_Fin by exact Ha.
  eexists. split; [reflexivity |]. apply clamp_bounds. lra.
Qed.

(** The NaN of a simulator of capacity zero: the mean effective capacity
    is zero, and the first sample divides the zero charge by it. *)
Lemma soc_first_sample_capacity_zero (s v : R) (g : rng) (th : R) (p : string)
    (cv : R) (noise : bool) :
  match value_of (discharge_simulation th p cv noise) (new_world 0 s v g) with
  | inr r => nth 0 (SOC_percent r) (Fin 0) = NaN
  | inl _ => ~ In p supported_profiles
  end.
Proof.
  rewrite discharge_simulation_value.
  set (w := new_world 0 s v g).
  pose proof (profile_current_supported th p cv (random_state w)) as Hs.
  pose proof (length_profile_current th p cv (random_state w)) as HL.
  destruct (profile_current th p cv (random_state w)) as [Iu |]; [| exact Hs].
  pose proof (length_with_noise cv noise (random_state w) Iu HL) as HL'.
  unfold result_of. cbv beta iota zeta delta [SOC_percent].
  unfold soc_series, clip. rewrite cumulative_trapezoid_increments.
  cbn [map nth].
  destruct (avg_capacity_scaled (self w) (with_noise cv noise (random_state w) Iu))
    as [f [-> _]]; [rewrite HL'; lia |].
  unfold soc_raw. rewrite div_zero_zero; [reflexivity | reflexivity |].
  unfold w, new_world, __init__. cbn [self capacity_As]. lra.
Qed.

(** ** Zero current *)

Lemma mul_zero_finite (b : float64) : finite b -> mul (Fin 0) b = Fin 0.
Proof. destruct b; simpl; try tauto. intros _. f_equal. lra. Qed.

Lemma zero_pulsed_sample (ti : float64) : finite ti -> is_zero (pulsed_sample 0 ti).
Proof.
  intros Ht. unfold pulsed_sample. apply mul_zero_finite.
  apply finite_add; [exact I |]. apply finite_mul; [exact I |].
  apply finite_sign, finite_sin. apply finite_div; [| lra].
  apply finite_mul; [exact I | exact Ht].
Qed.

Lemma zero_ramp_sample (th : R) (ti : float64) :
  th <> 0 -> finite ti -> is_zero (ramp_sample th 0 ti).
Proof.
  intros Hth Ht. unfold ramp_sample. apply mul_zero_finite.
  apply finite_add; [exact I |]. apply finite_div; [| lra].
  apply finite_mul; [exact I | exact Ht].
Qed.

Lemma zero_random_sample (zi : float64) :
  finite zi -> is_zero (clip1 (Fin (0.1 * 0)) (Fin (2 * 0)) (random_sample 0 zi)).
Proof.
  intros Hz. unfold random_sample. rewrite mul_zero_finite.
  - rewrite clip1_Fin by lra. unfold is_zero, Rmin, Rmax. f_equal. real_cases; lra.
  - apply finite_add; [exact I |]. apply finite_mul; [exact I | exact Hz].
Qed.

Lemma zero_profile_current (th : R) (p : string) (g : rng) :
  th <> 0 ->
  match profile_current th p 0 g with
  | Some Iu => Forall is_zero (fst Iu)
  | None => True
  end.
Proof.
  intros Hth. unfold profile_current. cbv zeta.
  pose proof (finite_time_grid th) as Ht.
  destruct (p =? "constant")%string; [| destruct (p =? "pulsed")%string;
    [| destruct (p =? "ramp")%string; [| destruct (p =? "random")%string]]];
    cbv beta iota delta [fst]; trivial.
  - unfold full_like. apply Forall_map, Forall_forall. intros x _. reflexivity.
  - apply Forall_map. revert Ht. apply Forall_impl. apply zero_pulsed_sample.
  - apply Forall_map. revert Ht. apply Forall_impl.
    intros ti. now apply zero_ramp_sample.
  - unfold clip. apply Forall_map, Forall_map.
    generalize (finite_draws g 0 1000). apply Forall_impl.
    apply zero_random_sample.
Qed.

Lemma zero_cumulative_trapezoid (y x : list float64) :
  Forall finite x -> Forall is_zero y -> Forall is_zero (cumulative_trapezoid y x).
Proof.
  intros Hx Hy. rewrite cumulative_trapezoid_increments.
  assert (Hadd : forall u v, is_zero u -> is_zero v -> is_zero (add u v)).
  { intros u v -> ->. unfold is_zero. cbn [add]. f_equal. lra. }
  constructor; [reflexivity |].
  apply Forall_cumsum; [exact Hadd |].
  apply Forall_trapezoid_increments with (D := finite) (Q := is_zero).
  - intros d u v Hd -> ->. destruct (finite_inv d Hd) as [x0 ->].
    cbn [add mul]. rewrite div_Fin by lra. unfold is_zero. f_equal. field.
  - now apply finite_diff.
  - exact Hy.
Qed.

Lemma soc_series_zero_charge (this : Batterysimulator) (t I : list float64) (a : R) :
  avg_capacity this I = Fin a -> a <> 0 ->
  0 <= initial_SOC this <= 100 ->
  Forall finite t -> Forall is_zero I ->
  Forall (fun soc => soc = Fin (initial_SOC this)) (soc_series this t I).
Proof.
  intros Havg Ha Hs Ht HI. unfold soc_series, clip. rewrite Havg.
  apply Forall_map, Forall_map.
  generalize (zero_cumulative_trapezoid I t Ht HI). apply Forall_impl.
  intros q ->. rewrite soc_sample_Fin by exact Ha. f_equal.
  replace (initial_SOC this - 0 / a * 100) with (initial_SOC this)
    by (field; exact Ha).
  rewrite Rmax_left by lra. apply Rmin_left. lra.
Qed.

(** ** A zero horizon *)

Lemma zero_time_grid : Forall is_zero (time_grid 0).
Proof.
  unfold time_grid. rewrite linspace_eq by lia.
  apply Forall_map, Forall_forall. intros i _. unfold is_zero. f_equal.
  unfold Rdiv. ring.
Qed.

Lemma nan_ramp_sample_zero_horizon (cv : R) (ti : float64) :
  is_zero ti -> is_nan (ramp_sample 0 cv ti).
Proof.
  intros ->. unfold ramp_sample, is_nan. cbn [mul].
  rewrite div_zero_zero by lra. reflexivity.
Qed.

Lemma nan_cumsum_increments (y x : list float64) :
  Forall is_nan y -> Forall is_nan (cumsum (trapezoid_increments y x)).
Proof.
  intros Hy. apply Forall_cumsum.
  - intros u v -> ->. reflexivity.
  - apply Forall_trapezoid_increments with (D := fun _ => True) (Q := is_nan).
    + intros d u v _ -> ->. unfold is_nan. destruct d; reflexivity.
    + apply Forall_forall. intros d _. exact I.
    + exact Hy.
Qed.

Lemma Forall_nth_0 {A} (P : A -> Prop) (l : list A) (d : A) :
  Forall P l -> (0 < length l)%nat -> P (nth 0 l d).
Proof. intros [| a l' Ha _]; cbn [length nth]; [lia | auto]. Qed.

(** With [time_hours = 0] the ramp profile divides zero by zero: every
    current is NaN, and so is every [SOC_percent] sample after the first. *)
Lemma soc_second_sample_zero_horizon_ramp (c s v : R) (g : rng) (cv : R) (noise : bool) :
  match value_of (discharge_simulation 0 "ramp" cv noise) (new_world c s v g) with
  | inr r => nth 1 (SOC_percent r) (Fin 0) = NaN
  | inl _ => ~ In "ramp"%string supported_profiles
  end.
Proof.
  rewrite discharge_simulation_value. unfold profile_current. cbv zeta.
  simpl ("ramp" =? "constant")%string. simpl ("ramp" =? "pulsed")%string.
  simpl ("ramp" =? "ramp")%string. cbv iota.
  set (w := new_world c s v g).
  set (I0 := map (ramp_sample 0 cv) (time_grid 0)).
  assert (HI0 : Forall is_nan I0).
  { unfold I0. apply Forall_map. generalize zero_time_grid. apply Forall_impl.
    apply nan_ramp_sample_zero_horizon. }
  assert (HL0 : length I0 = 1000%nat).
  { unfold I0. rewrite length_map. apply length_time_grid. }
  set (I := with_noise cv noise (random_state w) (I0, 0%nat)).
  assert (HI : Forall is_nan I).
  { unfold I, with_noise. cbv beta iota delta [fst snd]. destruct noise; [| exact HI0].
    apply Forall_zip_with with (P := is_nan) (Q := fun _ => True).
    - intros u z -> _. unfold is_nan. destruct z; reflexivity.
    - exact HI0.
    - apply Forall_forall. intros z _. exact Logic.I. }
  assert (HL : length I = 1000%nat).
  { unfold I. apply length_with_noise. exact HL0. }
  unfold result_of. cbv beta iota zeta delta [SOC_percent].
  unfold soc_series, clip.
  pose proof (length_cumulative_trapezoid I (time_grid 0)) as HLQ.
  rewrite HL, length_time_grid in HLQ. specialize (HLQ eq_refl ltac:(lia)).
  rewrite cumulative_trapezoid_increments in *. cbn [length] in HLQ.
  cbn [map nth].
  apply (Forall_nth_0 is_nan).
  - apply Forall_map, Forall_map.
    generalize (nan_cumsum_increments I (time_grid 0) HI). apply Forall_impl.
    intros q ->. reflexivity.
  - rewrite !length_map. lia.
Qed.

(** ** Recomputing the state of charge from a result *)

Lemma add_comm (a b : float64) : add a b = add b a.
Proof. destruct a, b; try reflexivity. cbn [add]. f_equal. lra. Qed.

Lemma clip1_clamp_percent (x : float64) : clip1 (Fin 0) (Fin 100) x = clamp_percent x.
Proof.
  destruct x as [x | | |]; unfold clip1, clamp_percent, maximum, minimum, ltb;
    try reflexivity.
  - destruct (Rlt_dec x 0); [destruct (Rlt_dec 100 0); [lra | reflexivity] |].
    destruct (Rlt_dec 100 x); reflexivity.
  - destruct (Rlt_dec 100 0); [lra | reflexivity].
Qed.

Lemma trapezoid_increments_cons (i0 i1 t0 t1 : float64) (I t : list float64) :
  trapezoid_increments (i0 :: i1 :: I) (t0 :: t1 :: t) =
  div (mul (sub t1 t0) (add i1 i0)) (Fin 2) ::
  trapezoid_increments (i1 :: I) (t1 :: t).
Proof. reflexivity. Qed.

Lemma trapezoid_increments_short_l (i0 : float64) (t : list float64) :
  trapezoid_increments [i0] t = [].
Proof.
  unfold trapezoid_increments, zip_with. cbn [tl removelast combine].
  now rewrite combine_nil.
Qed.

Lemma trapezoid_increments_nil_l (t : list float64) :
  trapezoid_increments [] t = [].
Proof.
  unfold trapezoid_increments, zip_with. cbn [tl removelast combine].
  now rewrite combine_nil.
Qed.

Lemma cumsum_from_charge (q : float64) (I t : list float64) :
  cumsum_from q (trapezoid_increments I t) = charge_from q I t.
Proof.
  revert q t. induction I as [| i0 I IH]; intros q t.
  - now rewrite trapezoid_increments_nil_l.
  - destruct t as [| t0 t]; [reflexivity |].
    destruct I as [| i1 I].
    + rewrite trapezoid_increments_short_l. destruct t; reflexivity.
    + destruct t as [| t1 t]; [reflexivity |].
      rewrite trapezoid_increments_cons. cbn [cumsum_from charge_from].
      rewrite (add_comm i0 i1). f_equal. apply IH.
Qed.

Lemma cumsum_from_zero (l : list float64) : cumsum l = cumsum_from (Fin 0) l.
Proof. destruct l as [| a l]; [reflexivity |]. cbn [cumsum cumsum_from]. now rewrite add_zero_l. Qed.

Lemma cumulative_trapezoid_charge (I t : list float64) :
  cumulative_trapezoid I t = discharged_charge I t.
Proof.
  rewrite cumulative_trapezoid_increments. unfold discharged_charge.
  now rewrite cumsum_from_zero, cumsum_from_charge.
Qed.

Lemma soc_series_recomputed (this : Batterysimulator) (t I : list float64) :
  recomputed_SOC (initial_SOC this) t I (avg_capacity this I) = soc_series this t I.
Proof.
  unfold recomputed_SOC, soc_series, clip.
  rewrite cumulative_trapezoid_charge, map_map.
  apply map_ext. intros q. symmetry. apply clip1_clamp_percent.
Qed.

(** ** A constant current: the state of charge over time *)

Lemma le_fin_leb (a b : float64) : le_fin a b -> leb a b = true.
Proof. intros [x [y [-> [-> H]]]]. now apply leb_Fin. Qed.

Lemma le_fin_trans : Relations_1.Transitive le_fin.
Proof.
  intros a b c [x [y [-> [-> Hxy]]]] [y' [z [Hy [-> Hyz]]]].
  injection Hy as <-. exists x, z. repeat split; lra.
Qed.

Lemma diff_cons (a b : float64) (l : list float64) :
  diff (a :: b :: l) = sub b a :: diff (b :: l).
Proof. reflexivity. Qed.

(** The steps of a non-decreasing grid are non-negative. *)
Lemma nonneg_diff_grid (f : nat -> R) (a n : nat) :
  (forall i, f i <= f (S i)) ->
  Forall nonneg (diff (map (fun i => Fin (f i)) (seq a n))).
Proof.
  intros Hf. revert a. induction n as [| n IH]; intros a; [constructor |].
  destruct n as [| n]; [constructor |].
  change (seq a (S (S n))) with (a :: seq (S a) (S n)).
  specialize (IH (S a)). cbn [seq map] in *. rewrite diff_cons.
  constructor; [| exact IH].
  exists (f (S a) - f a). split; [reflexivity |]. specialize (Hf a). lra.
Qed.

Lemma INR_999 : INR (1000 - 1) = 999.
Proof. rewrite INR_IZR_INZ. f_equal. Qed.

Lemma nonneg_diff_time_grid (th : R) : 0 <= th -> Forall nonneg (diff (time_grid th)).
Proof.
  intros Hth. unfold time_grid. rewrite linspace_eq by lia.
  apply nonneg_diff_grid. intros i. rewrite S_INR, INR_999. nra.
Qed.

Lemma sorted_cumsum_from (acc : float64) (l : list float64) :
  finite acc -> Forall nonneg l -> Sorted le_fin (acc :: cumsum_from acc l).
Proof.
  intros Hacc Hl. revert acc Hacc.
  induction Hl as [| v l [x [-> Hx]] _ IH]; intros acc Hacc; cbn [cumsum_from].
  - repeat constructor.
  - destruct (finite_inv acc Hacc) as [q ->]. cbn [add].
    constructor; [apply IH; exact I |].
    constructor. exists q, (q + x). repeat split; lra.
Qed.

Lemma sorted_cumulative_trapezoid (y x : list float64) :
  Forall nonneg (diff x) -> Forall nonneg y ->
  Sorted le_fin (cumulative_trapezoid y x).
Proof.
  intros Hd Hy. rewrite cumulative_trapezoid_increments, cumsum_from_zero.
  apply sorted_cumsum_from; [exact I |].
  apply Forall_trapezoid_increments with (D := nonneg) (Q := nonneg).
  - intros d u v [xd [-> Hxd]] [xu [-> Hxu]] [xv [-> Hxv]].
    cbn [add mul]. rewrite div_Fin by lra.
    eexists. split; [reflexivity |].
    apply Rmult_le_pos; [apply Rmult_le_pos |]; lra.
  - exact Hd.
  - exact Hy.
Qed.

Lemma Sorted_map_rel {A B} (R : A -> A -> Prop) (R' : B -> B -> Prop) (f : A -> B)
    (l : list A) :
  (forall a b, R a b -> R' (f a) (f b)) -> Sorted R l -> Sorted R' (map f l).
Proof.
  intros Hf. induction 1 as [| a l Hl IH Hhd]; cbn [map]; constructor.
  - exact IH.
  - destruct Hhd; cbn [map]; constructor. now apply Hf.
Qed.

Lemma StronglySorted_nth {A} (R : A -> A -> Prop) (l : list A) (d : A) :
  StronglySorted R l ->
  forall i j, (i < j < length l)%nat -> R (nth i l d) (nth j l d).
Proof.
  induction 1 as [| a l Hl IH Ha]; intros i j Hij; cbn [length] in Hij; [lia |].
  destruct j as [| j]; [lia |]. destruct i as [| i]; cbn [nth].
  - rewrite Forall_forall in Ha. apply Ha, nth_In. lia.
  - apply IH. lia.
Qed.

(** The state of charge falls as the discharged charge grows. *)
Lemma soc_sample_antitone (this : Batterysimulator) (a : R) (q1 q2 : float64) :
  0 < a -> le_fin q1 q2 ->
  le_fin (clip1 (Fin 0) (Fin 100) (soc_raw this (Fin a) q2))
         (clip1 (Fin 0) (Fin 100) (soc_raw this (Fin a) q1)).
Proof.
  intros Ha [x [y [-> [-> Hxy]]]].
  rewrite !soc_sample_Fin by lra.
  do 2 eexists. split; [reflexivity |]. split; [reflexivity |].
  apply Rle_min_compat_r, Rle_max_compat_r.
  assert (x / a <= y / a).
  { unfold Rdiv. apply Rmult_le_compat_r; [| exact Hxy].
    left. now apply Rinv_0_lt_compat. }
  lra.
Qed.

Lemma soc_series_nonincreasing (this : Batterysimulator) (t I : list float64) (a : R) :
  avg_capacity this I = Fin a -> 0 < a ->
  Forall finite t -> Forall nonneg (diff t) -> Forall nonneg I ->
  forall i j, (i <= j < length (soc_series this t I))%nat ->
    leb (nth j (soc_series this t I) NaN) (nth i (soc_series this t I) NaN) = true.
Proof.
  intros Havg Ha Ht Hd HI i j Hij.
  assert (HIf : Forall finite I).
  { revert HI. apply Forall_impl. intros u [x [-> _]]. exact Logic.I. }
  destruct (Nat.eq_dec i j) as [<- | Hne].
  - pose proof (soc_series_in_range this t I a Havg ltac:(lra) Ht HIf) as Hr.
    rewrite Forall_forall in Hr.
    destruct (Hr (nth i (soc_series this t I) NaN)) as [x [-> _]].
    + apply nth_In. lia.
    + apply leb_Fin. lra.
  - apply le_fin_leb.
    assert (HS : StronglySorted (fun u v => le_fin v u) (soc_series this t I)).
    { apply Sorted_StronglySorted.
      - intros u v w Huv Hvw. exact (le_fin_trans _ _ _ Hvw Huv).
      - unfold soc_series, clip. rewrite Havg, map_map.
        apply Sorted_map_rel with (R := le_fin).
        + intros q1 q2. now apply soc_sample_antitone.
        + now apply sorted_cumulative_trapezoid. }
    apply (StronglySorted_nth _ _ NaN HS i j). lia.
Qed.

Lemma constant_profile_value (th cv : R) (w : World) :
  value_of (discharge_simulation th "constant" cv false) w =
  inr (result_of (self w) (time_grid th) (full_like (time_grid th) cv)).
Proof.
  rewrite discharge_simulation_value. unfold profile_current. cbv zeta.
  simpl ("constant" =? "constant")%string. cbv iota.
  unfold with_noise. cbv beta iota delta [fst]. reflexivity.
Qed.

(** The first two samples of the state of charge under a constant current. *)
Lemma constant_soc_first_samples (this : Batterysimulator) (th cv a : R) :
  avg_capacity this (full_like (time_grid th) cv) = Fin a -> a <> 0 ->
  let SOC := soc_series this (time_grid th) (full_like (time_grid th) cv) in
  nth 0 SOC NaN = Fin (Rmin (Rmax (initial_SOC this) 0) 100) /\
  nth 1 SOC NaN =
    Fin (Rmin (Rmax (initial_SOC this - (th * 3600 / 999 * cv) / a * 100) 0) 100).
Proof.
  intros Havg Ha SOC. subst SOC. unfold soc_series, clip. rewrite Havg.
  unfold time_grid. rewrite linspace_eq by lia.
  change (seq 0 1000) with (0 :: 1 :: seq 2 998)%nat.
  unfold full_like. cbn [map].
  rewrite cumulative_trapezoid_increments, trapezoid_increments_cons.
  cbn [cumsum map nth sub add mul]. rewrite div_Fin by lra.
  rewrite !soc_sample_Fin by exact Ha.
  split; do 3 f_equal.
  - field. exact Ha.
  - rewrite INR_999. cbn [INR]. field. exact Ha.
Qed.

Lemma div_neg_of_product (n a : R) : a <> 0 -> n * a < 0 -> n / a < 0.
Proof.
  intros Ha H. replace (n / a) with (n * a * / (a * a)) by (field; exact Ha).
  assert (0 < / (a * a)) by (apply Rinv_0_lt_compat; nra).
  nra.
Qed.

(** When the horizon, the current and the capacity have a negative
    product, the second sample lies above the first. *)
Lemma constant_soc_rises (c s v : R) (g : rng) (th cv : R) :
  c <> 0 -> 0 <= s < 100 -> th * cv * c < 0 ->
  match value_of (discharge_simulation th "constant" cv false) (new_world c s v g) with
  | inr r => leb (nth 1 (SOC_percent r) NaN) (nth 0 (SOC_percent r) NaN) = false
  | inl _ => False
  end.
Proof.
  intros Hc Hs Hneg. rewrite constant_profile_value.
  set (w := new_world c s v g).
  unfold result_of. cbv beta iota zeta delta [SOC_percent].
  destruct (avg_capacity_scaled (self w) (full_like (time_grid th) cv))
    as [f [Ha Hf]].
  { rewrite length_full_like, length_time_grid. lia. }
  assert (Hk : capacity_As (self w) = c * 3600) by reflexivity.
  assert (Ha0 : capacity_As (self w) * f <> 0) by (rewrite Hk; nra).
  destruct (constant_soc_first_samples (self w) th cv _ Ha Ha0) as [-> ->].
  apply leb_Fin_false.
  assert (Hs' : initial_SOC (self w) = s) by reflexivity.
  rewrite Hs', Hk in *.
  assert (Hq : th * 3600 / 999 * cv / (c * 3600 * f) < 0).
  { apply div_neg_of_product; [exact Ha0 | nra]. }
  rewrite (Rmax_left s 0) by lra. rewrite (Rmin_left s 100) by lra.
  rewrite Rmax_left by lra.
  unfold Rmin. destruct (Rle_dec _ 100); lra.
Qed.

(** The scenario of a 10 Ah battery at 100 percent drained at a constant
    5 A for 3 hours without noise: the last sample of the state of charge
    is below the initial one. *)
Example constant_discharge_scenario :
  match value_of (discharge_simulation 3 "constant" 5 false)
                 (new_world 10 100 12 (fun _ => 0)) with
  | inr r => exists x, nth 999 (SOC_percent r) NaN = Fin x /\ x < 100
  | inl _ => False
  end.
Proof.
  rewrite constant_profile_value.
  set (w := new_world 10 100 12 (fun _ => 0)).
  unfold result_of. cbv beta iota zeta delta [SOC_percent].
  set (t := time_grid 3). set (I := full_like t 5).
  assert (HLI : length I = 1000%nat).
  { unfold I, t. now rewrite length_full_like, length_time_grid. }
  assert (HL : length (soc_series (self w) t I) = 1000%nat).
  { unfold t in *. rewrite length_soc_series; rewrite ?HLI, ?length_time_grid; auto; lia. }
  destruct (scaled_factor_pos (capacity_As (self w)) (avg_capacity (self w) I))
    as [a [Ha Hpos]].
  { unfold w, new_world, __init__. cbn [self capacity_As]. lra. }
  { apply avg_capacity_scaled. rewrite HLI. lia. }
  assert (HIn : Forall nonneg I).
  { unfold I, full_like. apply Forall_map, Forall_forall. intros x _.
    exists 5. split; [reflexivity | lra]. }
  assert (HIf : Forall finite I).
  { revert HIn. apply Forall_impl. intros u [x [-> _]]. exact Logic.I. }
  pose proof (soc_series_nonincreasing (self w) t I a Ha Hpos
                (finite_time_grid 3) (nonneg_diff_time_grid 3 ltac:(lra)) HIn
                1%nat 999%nat ltac:(rewrite HL; lia)) as Hle.
  pose proof (soc_series_in_range (self w) t I a Ha ltac:(lra)
                (finite_time_grid 3) HIf) as Hr.
  rewrite Forall_forall in Hr.
  destruct (Hr (nth 999 (soc_series (self w) t I) NaN)) as [x [Hx _]].
  { apply nth_In. rewrite HL. lia. }
  destruct (constant_soc_first_samples (self w) 3 5 a Ha ltac:(lra)) as [_ H1].
  fold t in H1. fold I in H1.
  rewrite Hx, H1 in Hle. apply leb_Fin in Hle.
  exists x. split; [exact Hx |].
  assert (Hs : initial_SOC (self w) = 100) by reflexivity.
  rewrite Hs in Hle.
  assert (Hq : 0 < 3 * 3600 / 999 * 5 / a).
  { apply Rdiv_lt_0_compat; lra. }
  pose proof (Rmin_l (Rmax (100 - 3 * 3600 / 999 * 5 / a * 100) 0) 100) as Hmin.
  assert (Hmax : Rmax (100 - 3 * 3600 / 999 * 5 / a * 100) 0 < 100)
    by (apply Rmax_lub_lt; lra).
  lra.
Qed.

(** ** The pulsed profile *)

Lemma sin_period_Z (x : R) (k : Z) :
  Rtrigo_def.sin (x + 2 * IZR k * PI) = Rtrigo_def.sin x.
Proof.
  destruct (Z_le_gt_dec 0 k) as [Hk | Hk].
  - rewrite <- (Z2Nat.id k Hk), <- INR_IZR_INZ. apply sin_period.
  - assert (Hn : IZR k = - INR (Z.to_nat (- k))).
    { rewrite INR_IZR_INZ, Z2Nat.id by lia. rewrite opp_IZR. lra. }
    rewrite Hn.
    rewrite <- (sin_period (x + 2 * - INR (Z.to_nat (- k)) * PI) (Z.to_nat (- k))).
    f_equal. ring.
Qed.

(** The sign of the sine within a period of 3600 seconds. *)
Lemma sin_first_half (t : R) (k : Z) :
  3600 * IZR k < t < 3600 * IZR k + 1800 ->
  0 < Rtrigo_def.sin (2 * PI * t / 3600).
Proof.
  intros Ht. pose proof PI_RGT_0 as Hpi.
  replace (2 * PI * t / 3600)
    with ((t - 3600 * IZR k) * (PI / 1800) + 2 * IZR k * PI) by field.
  rewrite sin_period_Z. apply sin_gt_0; nra.
Qed.

Lemma sin_second_half (t : R) (k : Z) :
  3600 * IZR k + 1800 < t < 3600 * IZR k + 3600 ->
  Rtrigo_def.sin (2 * PI * t / 3600) < 0.
Proof.
  intros Ht. pose proof PI_RGT_0 as Hpi.
  replace (2 * PI * t / 3600)
    with ((t - 3600 * IZR k) * (PI / 1800) + 2 * IZR k * PI) by field.
  rewrite sin_period_Z. apply sin_lt_0; nra.
Qed.

(** A pulsed sample: on, off, or half way, by the sign of the sine. *)
Lemma pulsed_sample_Fin (cv t : R) :
  pulsed_sample cv (Fin t) =
  mul (Fin cv) (add (Fin 0.5) (mul (Fin 0.5)
     (sign (Fin (Rtrigo_def.sin (2 * PI * t / 3600)))))).
Proof. unfold pulsed_sample. cbn [mul]. rewrite div_Fin by lra. reflexivity. Qed.

Lemma pulsed_sample_on (cv t : R) :
  0 < Rtrigo_def.sin (2 * PI * t / 3600) -> pulsed_sample cv (Fin t) = Fin cv.
Proof.
  intros H. rewrite pulsed_sample_Fin. unfold sign.
  destruct (Rlt_dec 0 _); [| contradiction]. cbn [mul add]. f_equal. lra.
Qed.

Lemma pulsed_sample_off (cv t : R) :
  Rtrigo_def.sin (2 * PI * t / 3600) < 0 -> pulsed_sample cv (Fin t) = Fin 0.
Proof.
  intros H. rewrite pulsed_sample_Fin. unfold sign.
  destruct (Rlt_dec 0 _); [lra |]. destruct (Rlt_dec _ 0); [| contradiction].
  cbn [mul add]. f_equal. lra.
Qed.

Lemma pulsed_sample_half (cv t : R) :
  Rtrigo_def.sin (2 * PI * t / 3600) = 0 -> pulsed_sample cv (Fin t) = Fin (cv / 2).
Proof.
  intros H. rewrite pulsed_sample_Fin, H. unfold sign.
  destruct (Rlt_dec 0 0); [lra |]. cbn [mul add]. f_equal. lra.
Qed.

Lemma pulsed_sample_three_values (cv t : R) :
  pulsed_sample cv (Fin t) = Fin 0 \/
  pulsed_sample cv (Fin t) = Fin (cv / 2) \/
  pulsed_sample cv (Fin t) = Fin cv.
Proof.
  destruct (Rtotal_order (Rtrigo_def.sin (2 * PI * t / 3600)) 0) as [H | [H | H]].
  - left. now apply pulsed_sample_off.
  - right. left. now apply pulsed_sample_half.
  - right. right. now apply pulsed_sample_on.
Qed.

Lemma nth_map_lt {A B} (f : A -> B) (l : list A) (i : nat) (d : B) (d' : A) :
  (i < length l)%nat -> nth i (map f l) d = f (nth i l d').
Proof.
  intros Hi. rewrite (nth_indep _ d (f d')) by (now rewrite length_map).
  apply map_nth.
Qed.

(** Sample [i] of the time grid is taken at [i * time_seconds / 999]. *)
Lemma nth_time_grid (th : R) (i : nat) :
  (i < 1000)%nat -> nth i (time_grid th) NaN = Fin (INR i * (th * 3600 / 999)).
Proof.
  intros Hi. unfold time_grid. rewrite linspace_eq by lia.
  rewrite (nth_map_lt _ _ _ _ 0%nat) by (rewrite length_seq; exact Hi).
  rewrite seq_nth by exact Hi. rewrite INR_999. cbn [Nat.add]. f_equal. field.
Qed.

Lemma pulsed_profile_value (th cv : R) (w : World) :
  value_of (discharge_simulation th "pulsed" cv false) w =
  inr (result_of (self w) (time_grid th) (map (pulsed_sample cv) (time_grid th))).
Proof.
  rewrite discharge_simulation_value. unfold profile_current. cbv zeta.
  simpl ("pulsed" =? "constant")%string. simpl ("pulsed" =? "pulsed")%string.
  cbv iota. unfold with_noise. cbv beta iota delta [fst]. reflexivity.
Qed.

Lemma nth_pulsed_current (th cv : R) (i : nat) :
  (i < 1000)%nat ->
  nth i (map (pulsed_sample cv) (time_grid th)) NaN =
  pulsed_sample cv (Fin (INR i * (th * 3600 / 999))).
Proof.
  intros Hi. rewrite (nth_map_lt _ _ _ _ NaN) by (rewrite length_time_grid; exact Hi).
  now rewrite nth_time_grid.
Qed.

Lemma guard_band_pos (t : R) : 0 < guard_band t.
Proof. unfold guard_band. pose proof (Rabs_pos t). nra. Qed.

(** A pulsed sample taken inside a half period. *)
Lemma pulsed_sample_inside (cv t : R) (k : Z) :
  (3600 * IZR k < t < 3600 * IZR k + 1800 -> pulsed_sample cv (Fin t) = Fin cv) /\
  (3600 * IZR k + 1800 < t < 3600 * IZR k + 3600 -> pulsed_sample cv (Fin t) = Fin 0).
Proof.
  split; intros Hk.
  - apply pulsed_sample_on. now apply sin_first_half with k.
  - apply pulsed_sample_off. now apply sin_second_half with k.
Qed.

Lemma pulsed_sample_at_zero (cv : R) : pulsed_sample cv (Fin 0) = Fin (cv / 2).
Proof.
  apply pulsed_sample_half.
  replace (2 * PI * 0 / 3600) with 0 by field. apply sin_0.
Qed.

Lemma time_grid_starts_at_zero (th : R) : nth 0 (time_grid th) NaN = Fin 0.
Proof. rewrite nth_time_grid by lia. cbn [INR]. f_equal. ring. Qed.

(** ** A NaN among the samples *)

(** A call that returns NaN as sample [i] of [SOC_percent] refutes every
    property of all samples that NaN does not have. *)
Lemma nan_sample_refutes (P : float64 -> Prop) (th : R) (p : string) (cv : R)
    (noise : bool) (w : World) (i : nat) :
  In p supported_profiles -> (i < 1000)%nat -> ~ P NaN ->
  match value_of (discharge_simulation th p cv noise) w with
  | inr r => nth i (SOC_percent r) (Fin 0) = NaN
  | inl _ => ~ In p supported_profiles
  end ->
  exists r,
    value_of (discharge_simulation th p cv noise) w = inr r /\
    nth i (SOC_percent r) (Fin 0) = NaN /\
    ~ Forall P (SOC_percent r).
Proof.
  intros Hp Hi HP H.
  pose proof (result_lengths th p cv noise w) as HL.
  destruct (value_of (discharge_simulation th p cv noise) w) as [e | r];
    [contradiction |].
  exists r. split; [reflexivity |]. split; [exact H |].
  intros HF. destruct HL as [Ht [_ [_ [Hsoc _]]]].
  rewrite Forall_forall in HF. apply HP. rewrite <- H. apply HF.
  apply nth_In. rewrite Hsoc, Ht. exact Hi.
Qed.

(** * The properties of the specification *)

(** C1.  On the inputs of the specification, a simulator with
    [capacity_Ah > 0] and a call with [time_hours > 0], whatever the
    profile, the current value, the noise flag and the generator's draws,
    every sample of the returned [SOC_percent] is a number between 0 and
    100. *)
Theorem soc_within_0_100 (c s v : R) (g : rng) (th : R) (p : string) (cv : R)
    (noise : bool) :
  0 < c -> 0 < th ->
  match value_of (discharge_simulation th p cv noise) (new_world c s v g) with
  | inr r => Forall in_percent_range (SOC_percent r)
  | inl _ => ~ In p supported_profiles
  end.
Proof.
  intros Hc Hth. rewrite discharge_simulation_value.
  set (w := new_world c s v g).
  pose proof (profile_current_supported th p cv (random_state w)) as Hs.
  pose proof (length_profile_current th p cv (random_state w)) as HL.
  pose proof (finite_profile_current th p cv (random_state w)
                ltac:(apply Rgt_not_eq; exact Hth)) as HF.
  destruct (profile_current th p cv (random_state w)) as [Iu |]; [| exact Hs].
  pose proof (length_with_noise cv noise (random_state w) Iu HL) as HL'.
  pose proof (finite_with_noise cv noise (random_state w) Iu HF) as HF'.
  unfold result_of. cbv beta iota zeta delta [SOC_percent].
  destruct (scaled_factor_nonzero (capacity_As (self w))
              (avg_capacity (self w) (with_noise cv noise (random_state w) Iu)))
    as [a [Ha Ha0]].
  - unfold w, new_world, __init__. cbn [self capacity_As]. lra.
  - apply avg_capacity_scaled. rewrite HL'. lia.
  - apply soc_series_in_range with (a := a); auto using finite_time_grid.
Qed.

(** The theorem at a 10 Ah battery discharged for 3 hours along a noisy
    random profile. *)
Lemma soc_within_0_100_witness :
  0 < 10 /\ 0 < 3 /\
  match value_of (discharge_simulation 3 "random" 5 true)
                 (new_world 10 100 12 (fun _ => 0)) with
  | inr r => Forall in_percent_range (SOC_percent r)
  | inl _ => ~ In "random"%string supported_profiles
  end.
Proof.
  split; [lra |]. split; [lra |].
  apply (soc_within_0_100 10 100 12 (fun _ => 0) 3 "random" 5 true); lra.
Defined.

(** C2.  On the simulators of the specification, those with
    [capacity_Ah > 0], and for every current [I], [peukert_capacity(I)]
    returns the value of the reference definition: [capacity_As] for [I <= 0], and otherwise
    [capacity_As * clamp((I_ref / I)^(peukert_exponent - 1), 0.3, 2.0)] with
    [I_ref = capacity_Ah / 20]; and what it returns, for these and for
    every other float64 current, lies between [0.3 * capacity_As] and
    [2.0 * capacity_As]. *)
Theorem peukert_capacity_matches_reference (c s v : R) (g : rng) (I : R) :
  0 < c ->
  let this := __init__ c s v in
  peukert_capacity (Fin I) (new_world c s v g)
    = (inr (Fin (peukert_reference this I)), new_world c s v g) /\
  0.3 * capacity_As this <= peukert_reference this I <= 2.0 * capacity_As this /\
  (forall current : float64,
     exists x, value_of (peukert_capacity current) (new_world c s v g) = inr (Fin x) /\
               0.3 * capacity_As this <= x <= 2.0 * capacity_As this).
Proof.
  intros Hc this.
  assert (Hk : 0 <= capacity_As this).
  { unfold this, __init__. cbn [capacity_As]. lra. }
  split; [| split].
  - rewrite peukert_capacity_run. unfold new_world at 1. cbn [self]. fold this.
    rewrite peukert_value_reference; [reflexivity | |];
      unfold this, __init__; cbn [capacity_Ah peukert_exponent]; lra.
  - apply peukert_reference_interval. exact Hk.
  - intros current. unfold value_of. rewrite peukert_capacity_run. cbn [fst].
    unfold new_world. cbn [self]. fold this.
    destruct (peukert_value_factor this current) as [f [-> Hf]].
    eexists. split; [reflexivity | nra].
Qed.

(** The theorem at a 10 Ah battery and a current of 5 A. *)
Lemma peukert_capacity_matches_reference_witness :
  0 < 10 /\
  (let this := __init__ 10 100 12 in
   peukert_capacity (Fin 5) (new_world 10 100 12 (fun _ => 0))
     = (inr (Fin (peukert_reference this 5)), new_world 10 100 12 (fun _ => 0)) /\
   0.3 * capacity_As this <= peukert_reference this 5 <= 2.0 * capacity_As this /\
   (forall current : float64,
      exists x,
        value_of (peukert_capacity current) (new_world 10 100 12 (fun _ => 0))
          = inr (Fin x) /\
        0.3 * capacity_As this <= x <= 2.0 * capacity_As this)).
Proof.
  split; [lra |].
  apply (peukert_capacity_matches_reference 10 100 12 (fun _ => 0) 5). lra.
Defined.

(** C3.  For every simulation call that returns a result, recomputing the
    state of charge from the returned time grid, the returned current
    series and the returned [effective_capacity_As] (cumulative trapezoid
    of the current starting at zero, then
    [initial_soc - (Q / avg_effective_capacity) * 100], then the clamp to
    [0, 100]) gives the returned [SOC_percent] series, exactly. *)
Theorem recomputed_soc_is_returned_soc (th : R) (p : string) (cv : R) (noise : bool)
    (w : World) :
  match value_of (discharge_simulation th p cv noise) w with
  | inr r =>
      recomputed_SOC (initial_SOC (self w)) (time_seconds r) (current_A r)
                     (effective_capacity_As r) = SOC_percent r
  | inl _ => ~ In p supported_profiles
  end.
Proof.
  rewrite discharge_simulation_value.
  pose proof (profile_current_supported th p cv (random_state w)) as Hs.
  destruct (profile_current th p cv (random_state w)) as [Iu |]; [| exact Hs].
  unfold result_of.
  cbv beta iota zeta delta [SOC_percent time_seconds current_A effective_capacity_As].
  apply soc_series_recomputed.
Qed.

(** C4.  Every simulation call that returns a result returns seven series
    of the same length, the 1000 samples of the time grid: [time_hours],
    [time_seconds], [current_A], [SOC_percent], [voltage_V], [power_W] and
    [remaining_capacity_Ah].  (A call that returns no result was given an
    unsupported profile.) *)
Theorem result_series_length_1000 (th : R) (p : string) (cv : R) (noise : bool) (w : World) :
  match value_of (discharge_simulation th p cv noise) w with
  | inr r =>
      length (time_seconds r) = 1000%nat /\
      length (time_hours r) = length (time_seconds r) /\
      length (current_A r) = length (time_seconds r) /\
      length (SOC_percent r) = length (time_seconds r) /\
      length (voltage_V r) = length (time_seconds r) /\
      length (power_W r) = length (time_seconds r) /\
      length (remaining_capacity_Ah r) = length (time_seconds r)
  | inl _ => ~ In p supported_profiles
  end.
Proof. apply result_lengths. Qed.

(** C5.  A call whose [current_profile] is none of "constant", "pulsed",
    "ramp" and "random" raises the invalid-profile [ValueError] and returns
    no result; a call with one of these four profiles does not raise: it
    returns a result. *)
Theorem invalid_profile_raises (th : R) (p : string) (cv : R) (noise : bool) (w : World) :
  match value_of (discharge_simulation th p cv noise) w with
  | inl e => e = ValueError "Invalid current profile." /\ ~ In p supported_profiles
  | inr _ => In p supported_profiles
  end.
Proof.
  rewrite discharge_simulation_value.
  pose proof (profile_current_supported th p cv (random_state w)) as Hs.
  destruct (profile_current th p cv (random_state w)); auto.
Qed.

(** C6.  On the inputs of the specification, a simulator with
    [capacity_Ah > 0] and a call with [time_hours > 0], and given
    [initial_soc] within [0, 100]: a call with [current_value = 0] and no
    noise returns, for each supported profile, a [SOC_percent] series whose
    every sample equals [initial_soc]. *)
Theorem zero_current_keeps_initial_soc (c s v : R) (g : rng) (th : R) (p : string) :
  0 < c -> 0 < th -> 0 <= s <= 100 ->
  match value_of (discharge_simulation th p 0 false) (new_world c s v g) with
  | inr r => Forall (fun soc => soc = Fin s) (SOC_percent r)
  | inl _ => ~ In p supported_profiles
  end.
Proof.
  intros Hc Hth Hs. rewrite discharge_simulation_value.
  set (w := new_world c s v g).
  pose proof (profile_current_supported th p 0 (random_state w)) as Hsup.
  pose proof (length_profile_current th p 0 (random_state w)) as HL.
  pose proof (zero_profile_current th p (random_state w)
                ltac:(apply Rgt_not_eq; exact Hth)) as HZ.
  destruct (profile_current th p 0 (random_state w)) as [Iu |]; [| exact Hsup].
  unfold with_noise, result_of. cbv beta iota zeta delta [SOC_percent].
  destruct (scaled_factor_nonzero (capacity_As (self w)) (avg_capacity (self w) (fst Iu)))
    as [a [Ha Ha0]].
  - unfold w, new_world, __init__. cbn [self capacity_As]. lra.
  - apply avg_capacity_scaled. rewrite HL. lia.
  - apply (soc_series_zero_charge (self w) (time_grid th) (fst Iu) a);
      auto using finite_time_grid.
Qed.

(** The theorem at a 10 Ah battery at 80 percent and the pulsed profile. *)
Lemma zero_current_keeps_initial_soc_witness :
  0 < 10 /\ 0 < 3 /\ 0 <= 80 <= 100 /\
  match value_of (discharge_simulation 3 "pulsed" 0 false)
                 (new_world 10 80 12 (fun _ => 0)) with
  | inr r => Forall (fun soc => soc = Fin 80) (SOC_percent r)
  | inl _ => ~ In "pulsed"%string supported_profiles
  end.
Proof.
  split; [lra |]. split; [lra |]. split; [lra |].
  apply (zero_current_keeps_initial_soc 10 80 12 (fun _ => 0) 3 "pulsed"); lra.
Defined.

(** C7, as the code has it.  For a simulator with [capacity_Ah > 0] and a
    call with the constant profile, no noise, [time_hours >= 0] and
    [current_value >= 0], the returned [SOC_percent] series does not
    increase: [SOC[i] >= SOC[j]] for all sample indices [i <= j]. *)
Theorem constant_profile_soc_nonincreasing (c s v : R) (g : rng) (th cv : R) :
  0 < c -> 0 <= th -> 0 <= cv ->
  match value_of (discharge_simulation th "constant" cv false) (new_world c s v g) with
  | inr r =>
      length (SOC_percent r) = 1000%nat /\
      forall i j, (i <= j < 1000)%nat ->
        leb (nth j (SOC_percent r) NaN) (nth i (SOC_percent r) NaN) = true
  | inl _ => False
  end.
Proof.
  intros Hc Hth Hcv. rewrite constant_profile_value.
  set (w := new_world c s v g).
  unfold result_of. cbv beta iota zeta delta [SOC_percent].
  assert (HL : length (soc_series (self w) (time_grid th)
                         (full_like (time_grid th) cv)) = 1000%nat).
  { rewrite length_soc_series; rewrite ?length_full_like, length_time_grid; auto; lia. }
  split; [exact HL |].
  destruct (scaled_factor_pos (capacity_As (self w))
              (avg_capacity (self w) (full_like (time_grid th) cv)))
    as [a [Ha Hpos]].
  - unfold w, new_world, __init__. cbn [self capacity_As]. lra.
  - apply avg_capacity_scaled. rewrite length_full_like, length_time_grid. lia.
  - intros i j Hij.
    apply (soc_series_nonincreasing (self w) _ _ a Ha Hpos).
    + apply finite_time_grid.
    + now apply nonneg_diff_time_grid.
    + unfold full_like. apply Forall_map, Forall_forall. intros x _.
      exists cv. split; [reflexivity | exact Hcv].
    + rewrite HL. exact Hij.
Qed.

(** The theorem at a 10 Ah battery discharged at 5 A for 3 hours. *)
Lemma constant_profile_soc_nonincreasing_witness :
  0 < 10 /\ 0 <= 3 /\ 0 <= 5 /\
  match value_of (discharge_simulation 3 "constant" 5 false)
                 (new_world 10 100 12 (fun _ => 0)) with
  | inr r =>
      length (SOC_percent r) = 1000%nat /\
      forall i j, (i <= j < 1000)%nat ->
        leb (nth j (SOC_percent r) NaN) (nth i (SOC_percent r) NaN) = true
  | inl _ => False
  end.
Proof.
  split; [lra |]. split; [lra |]. split; [lra |].
  apply (constant_profile_soc_nonincreasing 10 100 12 (fun _ => 0) 3 5); lra.
Defined.

(** C7 as stated fails: with a constant current of -5 A (3 hours, no
    noise) on a 10 Ah battery at 50 percent, the second sample of
    [SOC_percent] is above the first; so it is with a current of 5 A over
    a horizon of -3 hours, and with a current of 5 A over 3 hours on a
    simulator built with [capacity_Ah = -10]. *)
Lemma constant_soc_monotonicity_fails :
  (exists r,
     value_of (discharge_simulation 3 "constant" (-5) false)
              (new_world 10 50 12 (fun _ => 0)) = inr r /\
     leb (nth 1 (SOC_percent r) NaN) (nth 0 (SOC_percent r) NaN) = false) /\
  (exists r,
     value_of (discharge_simulation (-3) "constant" 5 false)
              (new_world 10 50 12 (fun _ => 0)) = inr r /\
     leb (nth 1 (SOC_percent r) NaN) (nth 0 (SOC_percent r) NaN) = false) /\
  (exists r,
     value_of (discharge_simulation 3 "constant" 5 false)
              (new_world (-10) 50 12 (fun _ => 0)) = inr r /\
     leb (nth 1 (SOC_percent r) NaN) (nth 0 (SOC_percent r) NaN) = false).
Proof.
  split; [| split].
  - pose proof (constant_soc_rises 10 50 12 (fun _ => 0) 3 (-5)) as H.
    destruct (value_of _ _) as [e | r].
    + exfalso. apply H; lra.
    + exists r. split; [reflexivity | apply H; lra].
  - pose proof (constant_soc_rises 10 50 12 (fun _ => 0) (-3) 5) as H.
    destruct (value_of _ _) as [e | r].
    + exfalso. apply H; lra.
    + exists r. split; [reflexivity | apply H; lra].
  - pose proof (constant_soc_rises (-10) 50 12 (fun _ => 0) 3 5) as H.
    destruct (value_of _ _) as [e | r].
    + exfalso. apply H; lra.
    + exists r. split; [reflexivity | apply H; lra].
Qed.

(** C8, as the code has it.  For every call with the pulsed profile and
    no noise, the current is a square wave of period 3600 seconds between
    0 and [current_value], but for the samples at its switching instants.
    Every sample is 0, [current_value] or half of [current_value]; the
    first one, taken at [t = 0] where the sine is zero, is the half.  A
    sample whose time [t] lies in the first half of a period,
    [3600 k <= t <= 3600 k + 1800], and keeps the distance [guard_band t]
    from both ends, equals [current_value]; one that lies in the second
    half, [3600 k + 1800 <= t <= 3600 k + 3600], and keeps that distance
    from both ends, equals 0.  Closer to a switching instant the sign of
    the sine is a matter of rounding in the program, and nothing is
    stated. *)
Theorem pulsed_profile_square_wave (th cv : R) (w : World) :
  match value_of (discharge_simulation th "pulsed" cv false) w with
  | inr r =>
      nth 0 (time_seconds r) NaN = Fin 0 /\
      nth 0 (current_A r) NaN = Fin (cv / 2) /\
      forall i, (i < 1000)%nat ->
        exists t,
          nth i (time_seconds r) NaN = Fin t /\
          (nth i (current_A r) NaN = Fin 0 \/
           nth i (current_A r) NaN = Fin (cv / 2) \/
           nth i (current_A r) NaN = Fin cv) /\
          (forall k : Z,
             3600 * IZR k + guard_band t <= t <= 3600 * IZR k + 1800 - guard_band t ->
             nth i (current_A r) NaN = Fin cv) /\
          (forall k : Z,
             3600 * IZR k + 1800 + guard_band t <= t
               <= 3600 * IZR k + 3600 - guard_band t ->
             nth i (current_A r) NaN = Fin 0)
  | inl _ => False
  end.
Proof.
  rewrite pulsed_profile_value. unfold result_of.
  cbv beta iota zeta delta [time_seconds current_A].
  split; [apply time_grid_starts_at_zero |]. split.
  { rewrite (nth_map_lt _ _ _ _ NaN) by (rewrite length_time_grid; lia).
    rewrite time_grid_starts_at_zero. apply pulsed_sample_at_zero. }
  intros i Hi. exists (INR i * (th * 3600 / 999)).
  split; [now apply nth_time_grid |].
  rewrite nth_pulsed_current by exact Hi.
  pose proof (guard_band_pos (INR i * (th * 3600 / 999))) as Hg.
  split; [apply pulsed_sample_three_values |].
  split; intros k Hk; apply (pulsed_sample_inside cv _ k); lra.
Qed.

(** Two samples of a pulsed current of 8 A over 4 hours: sample 250, taken
    some 3.6 seconds into the second period, is 8; sample 400, taken some
    366 seconds into the second half of that period, is 0. *)
Example pulsed_samples_on_and_off :
  exists r,
    value_of (discharge_simulation 4 "pulsed" 8 false)
             (new_world 10 100 12 (fun _ => 0)) = inr r /\
    nth 250 (current_A r) NaN = Fin 8 /\
    nth 400 (current_A r) NaN = Fin 0.
Proof.
  eexists. split; [apply pulsed_profile_value |].
  unfold result_of. cbv beta iota zeta delta [current_A].
  rewrite !nth_pulsed_current by lia.
  assert (H250 : INR 250 = 250) by (rewrite INR_IZR_INZ; reflexivity).
  assert (H400 : INR 400 = 400) by (rewrite INR_IZR_INZ; reflexivity).
  rewrite H250, H400. split.
  - apply (pulsed_sample_inside 8 _ 1). lra.
  - apply (pulsed_sample_inside 8 _ 1). lra.
Qed.

(** C8 as stated fails: the first sample of a pulsed current is taken at
    [t = 0], where the sine is zero and [np.sign] returns 0: with
    [current_value = 8] (4 hours, no noise) it is 4, neither 0 nor 8. *)
Lemma pulsed_first_sample_is_half :
  exists r,
    value_of (discharge_simulation 4 "pulsed" 8 false)
             (new_world 10 100 12 (fun _ => 0)) = inr r /\
    nth 0 (current_A r) NaN = Fin 4 /\
    nth 0 (current_A r) NaN <> Fin 0 /\
    nth 0 (current_A r) NaN <> Fin 8.
Proof.
  eexists. split; [apply pulsed_profile_value |].
  unfold result_of. cbv beta iota zeta delta [current_A].
  rewrite nth_pulsed_current by lia.
  rewrite pulsed_sample_half.
  - split; [f_equal; lra |]. split; intros H; injection H; lra.
  - cbn [INR]. replace (2 * PI * (0 * (4 * 3600 / 999)) / 3600) with 0 by field.
    apply sin_0.
Qed.

(** C9.  A call to [discharge_simulation], whatever its arguments and
    whether it returns or raises, leaves the six attributes of the
    [Batterysimulator] object as they were. *)
Theorem discharge_simulation_leaves_object (th : R) (p : string) (cv : R)
    (noise : bool) (w : World) :
  let w' := snd (discharge_simulation th p cv noise w) in
  capacity_Ah (self w') = capacity_Ah (self w) /\
  initial_SOC (self w') = initial_SOC (self w) /\
  nominal_voltage (self w') = nominal_voltage (self w) /\
  internal_resistance (self w') = internal_resistance (self w) /\
  peukert_exponent (self w') = peukert_exponent (self w) /\
  capacity_As (self w') = capacity_As (self w).
Proof.
  intros w'. subst w'.
  rewrite (preserves_discharge_simulation th p cv noise w).
  repeat split; reflexivity.
Qed.

(** C10.  On a simulator built with [capacity_Ah > 0], [peukert_capacity]
    returns a strictly positive number for every current (NaN and the
    infinities included), so the mean effective capacity of every
    simulation call that returns is a strictly positive number, and the
    division of the SOC formula never divides by zero. *)
Theorem effective_capacity_positive (c s v : R) (g : rng) :
  0 < c ->
  (forall current : float64,
     exists x, value_of (peukert_capacity current) (new_world c s v g) = inr (Fin x) /\
               0 < x) /\
  (forall (th : R) (p : string) (cv : R) (noise : bool),
     match value_of (discharge_simulation th p cv noise) (new_world c s v g) with
     | inr r => exists a, effective_capacity_As r = Fin a /\ 0 < a /\ a <> 0
     | inl _ => ~ In p supported_profiles
     end).
Proof.
  intros Hc.
  assert (Hk : 0 < capacity_As (self (new_world c s v g))).
  { unfold new_world, __init__. cbn [self capacity_As]. lra. }
  split.
  - intros current. unfold value_of. rewrite peukert_capacity_run. cbn [fst].
    destruct (scaled_factor_pos _ _ Hk
                (peukert_value_factor (self (new_world c s v g)) current))
      as [x [Hx Hpos]].
    exists x. now rewrite Hx.
  - intros th p cv noise. rewrite discharge_simulation_value.
    set (w := new_world c s v g) in *.
    pose proof (profile_current_supported th p cv (random_state w)) as Hs.
    pose proof (length_profile_current th p cv (random_state w)) as HL.
    destruct (profile_current th p cv (random_state w)) as [Iu |]; [| exact Hs].
    pose proof (length_with_noise cv noise (random_state w) Iu HL) as HL'.
    unfold result_of. cbv beta iota zeta delta [effective_capacity_As].
    destruct (scaled_factor_pos _ _ Hk
                (avg_capacity_scaled (self w)
                   (with_noise cv noise (random_state w) Iu)
                   ltac:(rewrite HL'; lia)))
      as [a [Ha Hpos]].
    exists a. repeat split; [exact Ha | exact Hpos | lra].
Qed.

(** The theorem at a 10 Ah battery. *)
Lemma effective_capacity_positive_witness :
  0 < 10 /\
  (exists x, value_of (peukert_capacity (Fin 5)) (new_world 10 100 12 (fun _ => 0))
             = inr (Fin x) /\ 0 < x) /\
  match value_of (discharge_simulation 3 "constant" 5 true)
                 (new_world 10 100 12 (fun _ => 0)) with
  | inr r => exists a, effective_capacity_As r = Fin a /\ 0 < a /\ a <> 0
  | inl _ => ~ In "constant"%string supported_profiles
  end.
Proof.
  assert (H : 0 < 10) by lra.
  split; [exact H |].
  split; [apply (effective_capacity_positive 10 100 12 (fun _ => 0) H)
         | apply (effective_capacity_positive 10 100 12 (fun _ => 0) H)].
Defined.

(** * Further properties of the program *)

(** ** The outcome of a call, by cases *)

Lemma call_outcome (th : R) (p : string) (cv : R) (noise : bool) (w : World) :
  (exists Iu,
     In p supported_profiles /\
     length (with_noise cv noise (random_state w) Iu) = 1000%nat /\
     (th <> 0 -> Forall finite (with_noise cv noise (random_state w) Iu)) /\
     value_of (discharge_simulation th p cv noise) w =
       inr (result_of (self w) (time_grid th)
              (with_noise cv noise (random_state w) Iu))) \/
  (~ In p supported_profiles /\
   value_of (discharge_simulation th p cv noise) w =
     inl (ValueError "Invalid current profile.")).
Proof.
  rewrite discharge_simulation_value.
  pose proof (profile_current_supported th p cv (random_state w)) as Hs.
  pose proof (length_profile_current th p cv (random_state w)) as HL.
  destruct (Req_dec_T th 0) as [Hth | Hth].
  - destruct (profile_current th p cv (random_state w)) as [Iu |]; [left | right; auto].
    exists Iu. repeat split; auto using length_with_noise. intros; contradiction.
  - pose proof (finite_profile_current th p cv (random_state w) Hth) as HF.
    destruct (profile_current th p cv (random_state w)) as [Iu |]; [left | right; auto].
    exists Iu. repeat split; auto using length_with_noise, finite_with_noise.
Qed.

Lemma profile_current_constant (th cv : R) (g : rng) :
  profile_current th "constant" cv g = Some (full_like (time_grid th) cv, 0%nat).
Proof.
  unfold profile_current. cbv zeta.
  simpl ("constant" =? "constant")%string. cbv iota. reflexivity.
Qed.

Lemma profile_current_pulsed (th cv : R) (g : rng) :
  profile_current th "pulsed" cv g = Some (map (pulsed_sample cv) (time_grid th), 0%nat).
Proof.
  unfold profile_current. cbv zeta.
  simpl ("pulsed" =? "constant")%string. simpl ("pulsed" =? "pulsed")%string.
  cbv iota. reflexivity.
Qed.

Lemma profile_current_ramp (th cv : R) (g : rng) :
  profile_current th "ramp" cv g = Some (map (ramp_sample th cv) (time_grid th), 0%nat).
Proof.
  unfold profile_current. cbv zeta.
  simpl ("ramp" =? "constant")%string. simpl ("ramp" =? "pulsed")%string.
  simpl ("ramp" =? "ramp")%string. cbv iota. reflexivity.
Qed.

Lemma profile_current_random (th cv : R) (g : rng) :
  profile_current th "random" cv g =
  Some (clip (map (random_sample cv) (draws g 0 1000)) (0.1 * cv) (2 * cv), 1000%nat).
Proof.
  unfold profile_current. cbv zeta.
  simpl ("random" =? "constant")%string. simpl ("random" =? "pulsed")%string.
  simpl ("random" =? "ramp")%string. simpl ("random" =? "random")%string.
  cbv iota. reflexivity.
Qed.

Lemma nth_zip_with (f : float64 -> float64 -> float64) (a b : ndarray) (i : nat)
    (d : float64) :
  (i < length a)%nat -> (i < length b)%nat ->
  nth i (zip_with f a b) d = f (nth i a d) (nth i b d).
Proof.
  revert b i. induction a as [| x a IH]; intros b i Ha Hb; cbn [length] in Ha; [lia |].
  destruct b as [| y b]; cbn [length] in Hb; [lia |].
  destruct i as [| i]; [reflexivity |].
  unfold zip_with in *. cbn [combine map nth]. apply IH; lia.
Qed.

Lemma nth_draws (g : rng) (off n i : nat) :
  (i < n)%nat -> nth i (draws g off n) NaN = Fin (g (off + i)%nat).
Proof.
  intros Hi. unfold draws.
  rewrite (nth_map_lt _ _ _ _ 0%nat) by (rewrite length_seq; exact Hi).
  now rewrite seq_nth.
Qed.

Lemma INR_999_lit : INR 999 = 999.
Proof. rewrite INR_IZR_INZ. f_equal. Qed.

(** ** The time grid *)

(** X1.  Every call that returns samples the time at [i * time_seconds / 999]
    seconds, [i = 0 .. 999]: [time_seconds] runs from 0 to
    [time_hours * 3600] and [time_hours] from 0 to [time_hours], sample by
    sample the same instant in the two units. *)
Theorem time_series_evenly_spaced (th : R) (p : string) (cv : R) (noise : bool)
    (w : World) :
  match value_of (discharge_simulation th p cv noise) w with
  | inr r =>
      (forall i, (i < 1000)%nat ->
         nth i (time_seconds r) NaN = Fin (INR i * (th * 3600 / 999)) /\
         nth i (time_hours r) NaN = Fin (INR i * (th * 3600 / 999) / 3600)) /\
      nth 0 (time_seconds r) NaN = Fin 0 /\
      nth 999 (time_seconds r) NaN = Fin (th * 3600) /\
      nth 0 (time_hours r) NaN = Fin 0 /\
      nth 999 (time_hours r) NaN = Fin th
  | inl _ => ~ In p supported_profiles
  end.
Proof.
  destruct (call_outcome th p cv noise w) as [[Iu [_ [_ [_ ->]]]] | [Hp ->]];
    [| exact Hp].
  unfold result_of. cbv beta iota zeta delta [time_seconds time_hours].
  assert (H : forall i, (i < 1000)%nat ->
            nth i (time_grid th) NaN = Fin (INR i * (th * 3600 / 999)) /\
            nth i (map (fun ti => div ti (Fin 3600)) (time_grid th)) NaN =
              Fin (INR i * (th * 3600 / 999) / 3600)).
  { intros i Hi. split; [now apply nth_time_grid |].
    rewrite (nth_map_lt _ _ _ _ NaN) by (rewrite length_time_grid; exact Hi).
    rewrite nth_time_grid by exact Hi. apply div_Fin. lra. }
  split; [exact H |].
  destruct (H 0%nat ltac:(lia)) as [H0 H0'].
  destruct (H 999%nat ltac:(lia)) as [H9 H9'].
  rewrite H0, H0', H9, H9', INR_999_lit. cbn [INR].
  repeat split; f_equal; field.
Qed.

(** ** The current profiles *)

(** X2.  The constant profile without noise: every one of the 1000 current
    samples is exactly [current_value]. *)
Theorem constant_current_is_current_value (th cv : R) (w : World) :
  match value_of (discharge_simulation th "constant" cv false) w with
  | inr r =>
      length (current_A r) = 1000%nat /\
      Forall (fun i => i = Fin cv) (current_A r)
  | inl _ => False
  end.
Proof.
  rewrite constant_profile_value. unfold result_of.
  cbv beta iota zeta delta [current_A]. split.
  - now rewrite length_full_like, length_time_grid.
  - unfold full_like. apply Forall_map, Forall_forall. intros x _. reflexivity.
Qed.

Lemma ramp_profile_value (th cv : R) (w : World) :
  value_of (discharge_simulation th "ramp" cv false) w =
  inr (result_of (self w) (time_grid th) (map (ramp_sample th cv) (time_grid th))).
Proof.
  rewrite discharge_simulation_value, profile_current_ramp.
  unfold with_noise. cbv beta iota delta [fst]. reflexivity.
Qed.

(** X3.  The ramp profile without noise over a horizon other than zero:
    current sample [i] is [current_value * (0.5 + 0.5 * i / 999)], a line
    from half of [current_value] at the first sample to [current_value] at
    the last. *)
Theorem ramp_current_is_linear (th cv : R) (w : World) :
  th <> 0 ->
  match value_of (discharge_simulation th "ramp" cv false) w with
  | inr r =>
      (forall i, (i < 1000)%nat ->
         nth i (current_A r) NaN = Fin (cv * (0.5 + 0.5 * INR i / 999))) /\
      nth 0 (current_A r) NaN = Fin (0.5 * cv) /\
      nth 999 (current_A r) NaN = Fin cv
  | inl _ => False
  end.
Proof.
  intros Hth. rewrite ramp_profile_value. unfold result_of.
  cbv beta iota zeta delta [current_A].
  assert (H : forall i, (i < 1000)%nat ->
            nth i (map (ramp_sample th cv) (time_grid th)) NaN =
            Fin (cv * (0.5 + 0.5 * INR i / 999))).
  { intros i Hi.
    rewrite (nth_map_lt _ _ _ _ NaN) by (rewrite length_time_grid; exact Hi).
    rewrite nth_time_grid by exact Hi. unfold ramp_sample. cbn [mul].
    rewrite div_Fin by lra. cbn [add mul]. f_equal. field. exact Hth. }
  split; [exact H |].
  rewrite (H 0%nat) by lia. rewrite (H 999%nat) by lia.
  rewrite INR_999_lit. cbn [INR]. split; f_equal; lra.
Qed.

Lemma ramp_current_is_linear_witness :
  3 <> 0 /\
  match value_of (discharge_simulation 3 "ramp" 5 false)
                 (new_world 10 100 12 (fun _ => 0)) with
  | inr r =>
      (forall i, (i < 1000)%nat ->
         nth i (current_A r) NaN = Fin (5 * (0.5 + 0.5 * INR i / 999))) /\
      nth 0 (current_A r) NaN = Fin (0.5 * 5) /\
      nth 999 (current_A r) NaN = Fin 5
  | inl _ => False
  end.
Proof.
  split; [lra |].
  apply (ramp_current_is_linear 3 5 (new_world 10 100 12 (fun _ => 0))). lra.
Defined.

Lemma nan_with_noise (cv : R) (noise : bool) (g : rng) (Iu : ndarray * nat) :
  Forall is_nan (fst Iu) -> Forall is_nan (with_noise cv noise g Iu).
Proof.
  intros HI. unfold with_noise. destruct noise; [| exact HI].
  apply Forall_zip_with with (P := is_nan) (Q := fun _ => True).
  - intros u z -> _. unfold is_nan. destruct z; reflexivity.
  - exact HI.
  - apply Forall_forall. intros z _. exact I.
Qed.

(** X4.  The ramp profile over a horizon of zero divides zero by zero:
    with or without noise every current sample is NaN, and so is every
    sample of [SOC_percent] after the first. *)
Theorem ramp_zero_horizon_is_nan (cv : R) (noise : bool) (w : World) :
  match value_of (discharge_simulation 0 "ramp" cv noise) w with
  | inr r =>
      Forall is_nan (current_A r) /\
      forall i, (1 <= i < 1000)%nat -> nth i (SOC_percent r) (Fin 0) = NaN
  | inl _ => False
  end.
Proof.
  rewrite discharge_simulation_value, profile_current_ramp.
  set (I := with_noise cv noise (random_state w)
              (map (ramp_sample 0 cv) (time_grid 0), 0%nat)).
  assert (HI : Forall is_nan I).
  { apply nan_with_noise. cbv beta iota delta [fst]. apply Forall_map.
    generalize zero_time_grid. apply Forall_impl. apply nan_ramp_sample_zero_horizon. }
  assert (HL : length I = 1000%nat).
  { apply length_with_noise. cbv beta iota delta [fst].
    rewrite length_map. apply length_time_grid. }
  unfold result_of. cbv beta iota zeta delta [SOC_percent current_A].
  split; [exact HI |]. intros i Hi.
  unfold soc_series, clip.
  pose proof (length_cumulative_trapezoid I (time_grid 0)) as HLQ.
  rewrite HL, length_time_grid in HLQ. specialize (HLQ eq_refl ltac:(lia)).
  rewrite cumulative_trapezoid_increments in *. cbn [length] in HLQ.
  destruct i as [| i]; [lia |]. cbn [map nth].
  assert (HF : Forall is_nan
            (map (clip1 (Fin 0) (Fin 100))
               (map (soc_raw (self w) (avg_capacity (self w) I))
                  (cumsum (trapezoid_increments I (time_grid 0)))))).
  { apply Forall_map, Forall_map.
    generalize (nan_cumsum_increments I (time_grid 0) HI). apply Forall_impl.
    intros q ->. reflexivity. }
  rewrite Forall_forall in HF. apply HF, nth_In. rewrite !length_map. lia.
Qed.

Lemma random_profile_value (th cv : R) (w : World) :
  value_of (discharge_simulation th "random" cv false) w =
  inr (result_of (self w) (time_grid th)
         (clip (map (random_sample cv) (draws (random_state w) 0 1000))
               (0.1 * cv) (2 * cv))).
Proof.
  rewrite discharge_simulation_value, profile_current_random.
  unfold with_noise. cbv beta iota delta [fst]. reflexivity.
Qed.

Lemma clip1_crossed (lo hi x : R) :
  hi < lo -> clip1 (Fin lo) (Fin hi) (Fin x) = Fin hi.
Proof.
  intros Hb. unfold clip1, maximum, minimum, ltb.
  destruct (Rlt_dec x lo); destruct (Rlt_dec hi _); try lra; reflexivity.
Qed.

(** X5.  The random profile without noise: sample [i] is
    [current_value * (0.7 + 0.6 * z)] for draw [i] of the generator,
    clipped; with [current_value >= 0] it lies within
    [[0.1 * current_value, 2 * current_value]], and with
    [current_value < 0], where the bounds of the clip are crossed, every
    sample is [2 * current_value] whatever the draws. *)
Theorem random_current_is_clipped (th cv : R) (w : World) :
  match value_of (discharge_simulation th "random" cv false) w with
  | inr r =>
      forall i, (i < 1000)%nat ->
        exists x, nth i (current_A r) NaN = Fin x /\
          (0 <= cv ->
             x = Rmin (Rmax (cv * (0.7 + 0.6 * random_state w i)) (0.1 * cv)) (2 * cv) /\
             0.1 * cv <= x <= 2 * cv) /\
          (cv < 0 -> x = 2 * cv)
  | inl _ => False
  end.
Proof.
  rewrite random_profile_value. unfold result_of.
  cbv beta iota zeta delta [current_A]. intros i Hi. unfold clip.
  rewrite map_map.
  rewrite (nth_map_lt _ _ _ _ NaN) by (rewrite length_draws; exact Hi).
  rewrite nth_draws by exact Hi. cbn [Nat.add]. unfold random_sample. cbn [mul add].
  destruct (Rle_dec 0 cv) as [Hcv | Hcv].
  - rewrite clip1_Fin by lra. eexists. split; [reflexivity |]. split; [| lra].
    intros _. split; [reflexivity | apply clamp_bounds; lra].
  - rewrite clip1_crossed by lra. exists (2 * cv). split; [reflexivity |].
    split; [lra | reflexivity].
Qed.

(** ** The noise *)

Lemma nth_with_noise (cv : R) (g : rng) (Iu : ndarray * nat) (i : nat) :
  length (fst Iu) = 1000%nat -> (i < 1000)%nat ->
  nth i (with_noise cv true g Iu) NaN =
  add (nth i (fst Iu) NaN) (Fin (0.05 * cv * g (snd Iu + i)%nat)).
Proof.
  intros HL Hi. unfold with_noise.
  rewrite nth_zip_with by (rewrite ?length_map, ?length_draws, ?HL; exact Hi).
  rewrite (nth_map_lt _ _ _ _ NaN) by (rewrite length_draws; exact Hi).
  now rewrite nth_draws.
Qed.

Lemma profile_current_draws (th : R) (p : string) (cv : R) (g : rng) :
  match profile_current th p cv g with
  | Some Iu => snd Iu = if (p =? "random")%string then 1000%nat else 0%nat
  | None => True
  end.
Proof.
  unfold profile_current. cbv zeta.
  destruct (String.eqb_spec p "constant") as [-> | H1]; [reflexivity |].
  destruct (String.eqb_spec p "pulsed") as [-> | H2]; [reflexivity |].
  destruct (String.eqb_spec p "ramp") as [-> | H3]; [reflexivity |].
  destruct (String.eqb_spec p "random") as [-> | H4]; [reflexivity | exact I].
Qed.

(** X6.  The noise is added sample by sample to the profile: the current
    of a call with [add_noise] is, at sample [i], the current of the same
    call without noise plus [0.05 * current_value] times a draw of the
    generator, draw [i] for the constant, pulsed and ramp profiles and
    draw [1000 + i] for the random profile, whose own samples use the
    first 1000 draws. *)
Theorem noise_is_added_per_sample (th : R) (p : string) (cv : R) (w : World) :
  match value_of (discharge_simulation th p cv true) w,
        value_of (discharge_simulation th p cv false) w with
  | inr noisy, inr clean =>
      forall i, (i < 1000)%nat ->
        nth i (current_A noisy) NaN =
        add (nth i (current_A clean) NaN)
            (Fin (0.05 * cv *
                  random_state w
                    ((if (p =? "random")%string then 1000 else 0) + i)%nat))
  | inl _, inl _ => ~ In p supported_profiles
  | _, _ => False
  end.
Proof.
  rewrite !discharge_simulation_value.
  pose proof (profile_current_supported th p cv (random_state w)) as Hs.
  pose proof (length_profile_current th p cv (random_state w)) as HL.
  pose proof (profile_current_draws th p cv (random_state w)) as HD.
  destruct (profile_current th p cv (random_state w)) as [Iu |]; [| exact Hs].
  unfold result_of. cbv beta iota zeta delta [current_A].
  intros i Hi. rewrite nth_with_noise by assumption. rewrite HD. reflexivity.
Qed.

(** ** The generator after a call *)

Lemma discharge_simulation_state (th : R) (p : string) (cv : R) (noise : bool)
    (w : World) :
  snd (discharge_simulation th p cv noise w) =
  match profile_current th p cv (random_state w) with
  | Some _ => Nat.iter (randn_calls p noise) (advance 1000) w
  | None => w
  end.
Proof.
  unfold discharge_simulation, profile_current, randn_calls.
  rewrite !length_linspace. cbv zeta.
  unfold bind at 1. unfold get_self at 1.
  destruct (String.eqb_spec p "constant") as [-> | H1];
    [| destruct (String.eqb_spec p "pulsed") as [-> | H2];
       [| destruct (String.eqb_spec p "ramp") as [-> | H3];
          [| destruct (String.eqb_spec p "random") as [-> | H4]]]];
    try simpl ("constant" =? "random")%string;
    try simpl ("pulsed" =? "random")%string;
    try simpl ("ramp" =? "random")%string;
    try simpl ("random" =? "random")%string;
    try (apply String.eqb_neq in H4; rewrite H4);
    destruct noise;
    cbv beta iota delta [bind ret raise];
    rewrite ?randn_run; cbv beta iota;
    rewrite ?randn_run; cbv beta iota;
    rewrite ?mapM_peukert_capacity_run;
    cbv beta iota delta [snd]; reflexivity.
Qed.

Lemma iter_advance (n m : nat) (w : World) :
  self (Nat.iter n (advance m) w) = self w /\
  forall k, random_state (Nat.iter n (advance m) w) k = random_state w (n * m + k)%nat.
Proof.
  induction n as [| n [IHs IHr]]; [split; reflexivity |].
  change (Nat.iter (S n) (advance m) w) with (advance m (Nat.iter n (advance m) w)).
  unfold advance at 1 3. cbn [self random_state]. split; [exact IHs |].
  intros k. rewrite IHr. f_equal. lia.
Qed.

(** X7.  What a call does to the program state.  A call that returns
    leaves the simulator object as it was and advances the global
    generator by 1000 draws for each [randn] it made: none for a constant,
    pulsed or ramp profile without noise, 1000 with noise or for the random
    profile, 2000 for the random profile with noise.  A call that raises
    leaves the whole state, generator included, untouched. *)
Theorem generator_after_call (th : R) (p : string) (cv : R) (noise : bool) (w : World) :
  let w' := snd (discharge_simulation th p cv noise w) in
  match value_of (discharge_simulation th p cv noise) w with
  | inr _ =>
      self w' = self w /\
      forall k, random_state w' k
                = random_state w (randn_calls p noise * 1000 + k)%nat
  | inl _ => w' = w
  end.
Proof.
  intros w'. subst w'.
  rewrite discharge_simulation_state, discharge_simulation_value.
  destruct (profile_current th p cv (random_state w)); [| reflexivity].
  apply iter_advance.
Qed.

(** X8.  Two simulations run one after the other, as the driver does: if
    the first raises, the second never runs and the error is the first
    one's; otherwise the second returns what it returns by itself on the
    same object with the generator advanced by the draws of the first. *)
Theorem two_calls_in_sequence (th1 : R) (p1 : string) (cv1 : R) (n1 : bool)
    (th2 : R) (p2 : string) (cv2 : R) (n2 : bool) (w : World) :
  value_of (bind (discharge_simulation th1 p1 cv1 n1)
                 (fun _ => discharge_simulation th2 p2 cv2 n2)) w =
  match value_of (discharge_simulation th1 p1 cv1 n1) w with
  | inl e => inl e
  | inr _ =>
      value_of (discharge_simulation th2 p2 cv2 n2)
               (Nat.iter (randn_calls p1 n1) (advance 1000) w)
  end.
Proof.
  pose proof (discharge_simulation_state th1 p1 cv1 n1 w) as Hs.
  pose proof (discharge_simulation_value th1 p1 cv1 n1 w) as Hv.
  unfold value_of in *. unfold bind at 1.
  destruct (discharge_simulation th1 p1 cv1 n1 w) as [[e | r] w'].
  - reflexivity.
  - cbv beta iota delta [fst snd] in Hs, Hv.
    destruct (profile_current th1 p1 cv1 (random_state w)); [| discriminate Hv].
    rewrite Hs. reflexivity.
Qed.

(** ** The first sample of the state of charge *)

(** X9.  On a simulator whose [capacity_Ah] is not zero, the first sample
    of [SOC_percent] is [initial_soc] clamped to [0, 100], whatever the
    horizon, the profile, the current and the noise: no charge is drawn at
    the first instant. *)
Theorem soc_starts_at_initial_soc (c s v : R) (g : rng) (th : R) (p : string)
    (cv : R) (noise : bool) :
  c <> 0 ->
  match value_of (discharge_simulation th p cv noise) (new_world c s v g) with
  | inr r =>
      nth 0 (SOC_percent r) NaN = Fin (Rmin (Rmax s 0) 100) /\
      (0 <= s <= 100 -> nth 0 (SOC_percent r) NaN = Fin s)
  | inl _ => ~ In p supported_profiles
  end.
Proof.
  intros Hc. set (w := new_world c s v g).
  destruct (call_outcome th p cv noise w) as [[Iu [_ [HL [_ ->]]]] | [Hp ->]];
    [| exact Hp].
  unfold result_of. cbv beta iota zeta delta [SOC_percent].
  unfold soc_series, clip. rewrite cumulative_trapezoid_increments.
  cbn [map nth].
  destruct (scaled_factor_nonzero (capacity_As (self w))
              (avg_capacity (self w) (with_noise cv noise (random_state w) Iu)))
    as [a [-> Ha0]].
  { unfold w, new_world, __init__. cbn [self capacity_As]. lra. }
  { apply avg_capacity_scaled. rewrite HL. lia. }
  rewrite soc_sample_Fin by exact Ha0.
  assert (Hs : initial_SOC (self w) = s) by reflexivity. rewrite Hs.
  replace (s - 0 / a * 100) with s by (field; exact Ha0).
  split; [reflexivity |]. intros Hr. f_equal.
  rewrite Rmax_left by lra. apply Rmin_left. lra.
Qed.

Lemma soc_starts_at_initial_soc_witness :
  10 <> 0 /\
  match value_of (discharge_simulation 3 "random" 5 true)
                 (new_world 10 80 12 (fun _ => 0)) with
  | inr r =>
      nth 0 (SOC_percent r) NaN = Fin (Rmin (Rmax 80 0) 100) /\
      (0 <= 80 <= 100 -> nth 0 (SOC_percent r) NaN = Fin 80)
  | inl _ => ~ In "random"%string supported_profiles
  end.
Proof.
  split; [lra |].
  apply (soc_starts_at_initial_soc 10 80 12 (fun _ => 0) 3 "random" 5 true). lra.
Defined.

(** ** A constant current: the mean capacity and the charge drawn *)

Lemma fold_add_const (x : R) (l : ndarray) (a : R) :
  Forall (fun v => v = Fin x) l ->
  fold_left add l (Fin a) = Fin (a + INR (length l) * x).
Proof.
  intros Hl. revert a. induction Hl as [| v l -> _ IH]; intros a.
  - cbn [fold_left length INR]. f_equal. lra.
  - cbn [fold_left add]. rewrite IH. cbn [length]. rewrite S_INR. f_equal. lra.
Qed.

Lemma mean_const (x : R) (l : ndarray) :
  (0 < length l)%nat -> Forall (fun v => v = Fin x) l -> mean l = Fin x.
Proof.
  intros Hn Hl. unfold mean. rewrite (fold_add_const x l 0 Hl).
  assert (Hpos : 0 < INR (length l)) by (apply lt_0_INR; exact Hn).
  rewrite div_Fin by lra. f_equal. field. lra.
Qed.

(** A number is within every relative tolerance of itself. *)
Lemma within_tolerance_refl (tol x : R) : 0 <= tol -> Rabs (x - x) <= tol * Rabs x.
Proof.
  intros Htol. replace (x - x) with 0 by ring. rewrite Rabs_R0.
  apply Rmult_le_pos; [exact Htol | apply Rabs_pos].
Qed.

(** X10.  For the constant profile without noise the returned
    [effective_capacity_As] is the mean of 1000 copies of what
    [peukert_capacity(current_value)] returns, and agrees with it within a
    relative tolerance of [1e-12].  (The two are equal in exact arithmetic;
    the program's sum of 1000 doubles rounds, so equality is not
    stated.) *)
Theorem constant_effective_capacity_near_peukert (th cv : R) (w : World) :
  match value_of (discharge_simulation th "constant" cv false) w,
        value_of (peukert_capacity (Fin cv)) w with
  | inr r, inr e =>
      exists a x, effective_capacity_As r = Fin a /\ e = Fin x /\
                  Rabs (a - x) <= 1e-12 * Rabs x
  | _, _ => False
  end.
Proof.
  rewrite constant_profile_value. unfold value_of at 1.
  rewrite peukert_capacity_run. cbv beta iota delta [fst].
  unfold result_of. cbv beta iota zeta delta [effective_capacity_As].
  unfold avg_capacity, full_like. rewrite map_map.
  destruct (peukert_value_factor (self w) (Fin cv)) as [f [Hf _]].
  rewrite Hf. exists (capacity_As (self w) * f), (capacity_As (self w) * f).
  split; [| split; [reflexivity | apply within_tolerance_refl; lra]].
  apply mean_const.
  - rewrite length_map, length_time_grid. lia.
  - apply Forall_map, Forall_forall. intros x _. reflexivity.
Qed.

Lemma Forall_diff_grid (P : float64 -> Prop) (f : nat -> R) (a n : nat) :
  (forall i, P (Fin (f (S i) - f i))) ->
  Forall P (diff (map (fun i => Fin (f i)) (seq a n))).
Proof.
  intros Hf. revert a. induction n as [| n IH]; intros a; [constructor |].
  destruct n as [| n]; [constructor |].
  change (seq a (S (S n))) with (a :: seq (S a) (S n)).
  specialize (IH (S a)). cbn [seq map] in *. rewrite diff_cons.
  constructor; [apply Hf | exact IH].
Qed.

Lemma nth_cumsum_from_const (d : R) (l : ndarray) (a : R) (i : nat) :
  Forall (fun v => v = Fin d) l -> (i < length l)%nat ->
  nth i (cumsum_from (Fin a) l) NaN = Fin (a + INR (S i) * d).
Proof.
  intros Hl. revert a i. induction Hl as [| v l -> _ IH]; intros a i Hi;
    cbn [length] in Hi; [lia |].
  cbn [cumsum_from add]. destruct i as [| i]; cbn [nth].
  - f_equal. cbn [INR]. lra.
  - rewrite IH by lia. f_equal. rewrite (S_INR (S i)). lra.
Qed.

Lemma length_trapezoid_increments (y x : ndarray) :
  length (trapezoid_increments y x) = Nat.min (length x - 1) (length y - 1).
Proof.
  unfold trapezoid_increments.
  rewrite length_map, !length_zip_with, length_diff, length_tl, length_removelast.
  lia.
Qed.

Lemma constant_increments (th cv : R) :
  Forall (fun v => v = Fin (th * 3600 / 999 * cv))
         (trapezoid_increments (full_like (time_grid th) cv) (time_grid th)).
Proof.
  apply Forall_trapezoid_increments
    with (D := fun d => d = Fin (th * 3600 / 999)) (Q := fun u => u = Fin cv).
  - intros d u v -> -> ->. cbn [add mul]. rewrite div_Fin by lra. f_equal. field.
  - unfold time_grid. rewrite linspace_eq by lia. apply Forall_diff_grid.
    intros k. rewrite S_INR, INR_999. f_equal. field.
  - unfold full_like. apply Forall_map, Forall_forall. intros x _. reflexivity.
Qed.

Lemma nth_cons_zero_cumsum (l : ndarray) (i : nat) :
  nth (S i) (Fin 0 :: cumsum l) NaN = nth i (cumsum_from (Fin 0) l) NaN.
Proof. rewrite cumsum_from_zero. reflexivity. Qed.

(** Under a constant current the charge drawn is the current times the
    time, sample by sample. *)
Lemma constant_charge (th cv : R) (i : nat) :
  (i < 1000)%nat ->
  nth i (cumulative_trapezoid (full_like (time_grid th) cv) (time_grid th)) NaN =
  Fin (cv * (INR i * (th * 3600 / 999))).
Proof.
  intros Hi. rewrite cumulative_trapezoid_increments.
  destruct i as [| i].
  - change (Fin 0 = Fin (cv * (INR 0 * (th * 3600 / 999)))).
    f_equal. cbn [INR]. lra.
  - rewrite nth_cons_zero_cumsum.
    rewrite (nth_cumsum_from_const _ _ _ _ (constant_increments th cv)).
    + f_equal. lra.
    + rewrite length_trapezoid_increments, length_full_like, length_time_grid. lia.
Qed.

(** X11.  For the constant profile without noise on a simulator whose
    [capacity_Ah] is not zero, the state of charge falls linearly in time
    until it is clamped: with [a] the returned [effective_capacity_As],
    sample [i], taken at [t = i * time_seconds / 999], is
    [initial_soc - current_value * t / a * 100] clamped to [0, 100]. *)
Theorem constant_soc_is_linear (c s v : R) (g : rng) (th cv : R) :
  c <> 0 ->
  match value_of (discharge_simulation th "constant" cv false) (new_world c s v g) with
  | inr r =>
      exists a, effective_capacity_As r = Fin a /\ a <> 0 /\
        forall i, (i < 1000)%nat ->
          nth i (SOC_percent r) NaN =
          Fin (Rmin (Rmax (s - cv * (INR i * (th * 3600 / 999)) / a * 100) 0) 100)
  | inl _ => False
  end.
Proof.
  intros Hc. rewrite constant_profile_value. set (w := new_world c s v g).
  unfold result_of. cbv beta iota zeta delta [SOC_percent effective_capacity_As].
  destruct (scaled_factor_nonzero (capacity_As (self w))
              (avg_capacity (self w) (full_like (time_grid th) cv)))
    as [a [Ha Ha0]].
  { unfold w, new_world, __init__. cbn [self capacity_As]. lra. }
  { apply avg_capacity_scaled. rewrite length_full_like, length_time_grid. lia. }
  exists a. split; [exact Ha |]. split; [exact Ha0 |].
  intros i Hi. unfold soc_series, clip. rewrite Ha, map_map.
  rewrite (nth_map_lt _ _ _ _ NaN).
  - rewrite constant_charge by exact Hi. now rewrite soc_sample_Fin.
  - rewrite length_cumulative_trapezoid;
      rewrite ?length_full_like, length_time_grid; auto; lia.
Qed.

Lemma constant_soc_is_linear_witness :
  10 <> 0 /\
  match value_of (discharge_simulation 3 "constant" 5 false)
                 (new_world 10 100 12 (fun _ => 0)) with
  | inr r =>
      exists a, effective_capacity_As r = Fin a /\ a <> 0 /\
        forall i, (i < 1000)%nat ->
          nth i (SOC_percent r) NaN =
          Fin (Rmin (Rmax (100 - 5 * (INR i * (3 * 3600 / 999)) / a * 100) 0) 100)
  | inl _ => False
  end.
Proof.
  split; [lra |].
  apply (constant_soc_is_linear 10 100 12 (fun _ => 0) 3 5). lra.
Defined.

(** ** The derived series: remaining capacity, voltage and power *)

Lemma nth_soc_in_range (this : Batterysimulator) (t I : ndarray) (a : R) (i : nat) :
  avg_capacity this I = Fin a -> a <> 0 ->
  Forall finite t -> Forall finite I ->
  (i < length (soc_series this t I))%nat ->
  exists soc, nth i (soc_series this t I) NaN = Fin soc /\ 0 <= soc <= 100.
Proof.
  intros Ha Ha0 Ht HI Hi.
  pose proof (soc_series_in_range this t I a Ha Ha0 Ht HI) as Hr.
  rewrite Forall_forall in Hr. apply Hr, nth_In, Hi.
Qed.

(** X12.  On a simulator with [capacity_Ah > 0] and for a horizon other
    than zero, each sample of [remaining_capacity_Ah] is [capacity_Ah]
    times the state of charge of the same sample over 100, a number
    between 0 and [capacity_Ah]. *)
Theorem remaining_capacity_follows_soc (c s v : R) (g : rng) (th : R) (p : string)
    (cv : R) (noise : bool) :
  0 < c -> th <> 0 ->
  match value_of (discharge_simulation th p cv noise) (new_world c s v g) with
  | inr r =>
      forall i, (i < 1000)%nat ->
        exists soc,
          nth i (SOC_percent r) NaN = Fin soc /\
          nth i (remaining_capacity_Ah r) NaN = Fin (c * soc / 100) /\
          0 <= c * soc / 100 <= c
  | inl _ => ~ In p supported_profiles
  end.
Proof.
  intros Hc Hth. set (w := new_world c s v g).
  destruct (call_outcome th p cv noise w) as [[Iu [_ [HL [HF ->]]]] | [Hp ->]];
    [| exact Hp].
  specialize (HF Hth).
  unfold result_of. cbv beta iota zeta delta [SOC_percent remaining_capacity_Ah].
  set (I := with_noise cv noise (random_state w) Iu) in *.
  assert (HLs : length (soc_series (self w) (time_grid th) I) = 1000%nat).
  { rewrite length_soc_series; rewrite ?HL, ?length_time_grid; auto; lia. }
  destruct (scaled_factor_nonzero (capacity_As (self w)) (avg_capacity (self w) I))
    as [a [Ha Ha0]].
  { unfold w, new_world, __init__. cbn [self capacity_As]. lra. }
  { apply avg_capacity_scaled. rewrite HL. lia. }
  intros i Hi.
  destruct (nth_soc_in_range (self w) (time_grid th) I a i Ha Ha0
              (finite_time_grid th) HF ltac:(rewrite HLs; exact Hi))
    as [soc [Hsoc Hr]].
  exists soc. split; [exact Hsoc |].
  rewrite (nth_map_lt _ _ _ _ NaN) by (rewrite HLs; exact Hi).
  rewrite Hsoc. cbn [mul]. rewrite div_Fin by lra.
  split; [reflexivity |]. split.
  - apply Rmult_le_pos; [apply Rmult_le_pos |]; lra.
  - apply Rmult_le_reg_r with 100; [lra |].
    unfold Rdiv. rewrite Rmult_assoc, Rinv_l by lra. nra.
Qed.

Lemma remaining_capacity_follows_soc_witness :
  0 < 10 /\ 3 <> 0 /\
  match value_of (discharge_simulation 3 "pulsed" 8 true)
                 (new_world 10 100 12 (fun _ => 0)) with
  | inr r =>
      forall i, (i < 1000)%nat ->
        exists soc,
          nth i (SOC_percent r) NaN = Fin soc /\
          nth i (remaining_capacity_Ah r) NaN = Fin (10 * soc / 100) /\
          0 <= 10 * soc / 100 <= 10
  | inl _ => ~ In "pulsed"%string supported_profiles
  end.
Proof.
  split; [lra |]. split; [lra |].
  apply (remaining_capacity_follows_soc 10 100 12 (fun _ => 0) 3 "pulsed" 8 true); lra.
Defined.

(** X13.  On a simulator whose [capacity_Ah] is not zero and whose
    [nominal_voltage] is not negative, for a horizon other than zero: at
    every sample the terminal voltage is the open-circuit voltage, which
    lies between 80 and 100 percent of [nominal_voltage], less the drop
    [0.05 * current] over the internal resistance; and the power is that
    voltage times the current of the same sample. *)
Theorem terminal_voltage_bounds (c s v : R) (g : rng) (th : R) (p : string)
    (cv : R) (noise : bool) :
  c <> 0 -> th <> 0 -> 0 <= v ->
  match value_of (discharge_simulation th p cv noise) (new_world c s v g) with
  | inr r =>
      forall i, (i < 1000)%nat ->
        exists cur volt,
          nth i (current_A r) NaN = Fin cur /\
          nth i (voltage_V r) NaN = Fin volt /\
          0.8 * v - 0.05 * cur <= volt <= v - 0.05 * cur /\
          nth i (power_W r) NaN = Fin (volt * cur)
  | inl _ => ~ In p supported_profiles
  end.
Proof.
  intros Hc Hth Hv. set (w := new_world c s v g).
  destruct (call_outcome th p cv noise w) as [[Iu [_ [HL [HF ->]]]] | [Hp ->]];
    [| exact Hp].
  specialize (HF Hth).
  unfold result_of. cbv beta iota zeta delta [current_A voltage_V power_W].
  set (I := with_noise cv noise (random_state w) Iu) in *.
  assert (HLs : length (soc_series (self w) (time_grid th) I) = 1000%nat).
  { rewrite length_soc_series; rewrite ?HL, ?length_time_grid; auto; lia. }
  assert (HLv : length (voltage_series (self w)
                  (soc_series (self w) (time_grid th) I) I) = 1000%nat).
  { rewrite length_voltage_series; rewrite ?HLs, ?HL; auto. }
  destruct (scaled_factor_nonzero (capacity_As (self w)) (avg_capacity (self w) I))
    as [a [Ha Ha0]].
  { unfold w, new_world, __init__. cbn [self capacity_As]. lra. }
  { apply avg_capacity_scaled. rewrite HL. lia. }
  intros i Hi.
  destruct (nth_soc_in_range (self w) (time_grid th) I a i Ha Ha0
              (finite_time_grid th) HF ltac:(rewrite HLs; exact Hi))
    as [soc [Hsoc Hr]].
  assert (Hcur : exists cur, nth i I NaN = Fin cur).
  { apply finite_inv. rewrite Forall_forall in HF. apply HF, nth_In.
    rewrite HL. exact Hi. }
  destruct Hcur as [cur Hcur].
  assert (Hvolt : nth i (voltage_series (self w)
                    (soc_series (self w) (time_grid th) I) I) NaN
                  = Fin (v * (0.8 + 0.2 * soc / 100) - cur * 0.05)).
  { unfold voltage_series.
    rewrite nth_zip_with by (rewrite length_map, ?HLs, ?HL; exact Hi).
    rewrite (nth_map_lt _ _ _ _ NaN) by (rewrite HLs; exact Hi).
    rewrite (nth_map_lt _ _ _ _ NaN) by (rewrite HL; exact Hi).
    rewrite Hsoc, Hcur. cbn [mul]. rewrite div_Fin by lra. reflexivity. }
  exists cur, (v * (0.8 + 0.2 * soc / 100) - cur * 0.05).
  split; [exact Hcur |]. split; [exact Hvolt |]. split.
  - assert (0 <= v * (soc / 100) <= v).
    { split; [apply Rmult_le_pos; lra |]. nra. }
    lra.
  - rewrite nth_zip_with by (rewrite ?HLv, ?HL; exact Hi).
    rewrite Hvolt, Hcur. reflexivity.
Qed.

Lemma terminal_voltage_bounds_witness :
  10 <> 0 /\ 3 <> 0 /\ 0 <= 12 /\
  match value_of (discharge_simulation 3 "constant" 5 true)
                 (new_world 10 100 12 (fun _ => 0)) with
  | inr r =>
      forall i, (i < 1000)%nat ->
        exists cur volt,
          nth i (current_A r) NaN = Fin cur /\
          nth i (voltage_V r) NaN = Fin volt /\
          0.8 * 12 - 0.05 * cur <= volt <= 12 - 0.05 * cur /\
          nth i (power_W r) NaN = Fin (volt * cur)
  | inl _ => ~ In "constant"%string supported_profiles
  end.
Proof.
  split; [lra |]. split; [lra |]. split; [lra |].
  apply (terminal_voltage_bounds 10 100 12 (fun _ => 0) 3 "constant" 5 true); lra.
Defined.

(** ** Zero current, with or without noise *)

Lemma zero_with_noise (noise : bool) (g : rng) (Iu : ndarray * nat) :
  Forall is_zero (fst Iu) -> Forall is_zero (with_noise 0 noise g Iu).
Proof.
  intros HI. unfold with_noise. destruct noise; [| exact HI].
  apply Forall_zip_with with (P := is_zero) (Q := is_zero).
  - intros u z -> ->. unfold is_zero. cbn [add]. f_equal. lra.
  - exact HI.
  - apply Forall_map. generalize (finite_draws g (snd Iu) 1000). apply Forall_impl.
    intros z Hz. destruct (finite_inv z Hz) as [x ->].
    unfold is_zero. cbn [mul]. f_equal. lra.
Qed.

Lemma zero_power (V I : ndarray) :
  Forall finite V -> Forall is_zero I -> Forall is_zero (zip_with mul V I).
Proof.
  apply Forall_zip_with. intros u z Hu ->. destruct (finite_inv u Hu) as [x ->].
  unfold is_zero. cbn [mul]. f_equal. lra.
Qed.

Lemma finite_voltage_series (this : Batterysimulator) (SOC I : ndarray) :
  Forall finite SOC -> Forall finite I -> Forall finite (voltage_series this SOC I).
Proof.
  intros HS HI. unfold voltage_series.
  apply Forall_zip_with with (P := finite) (Q := finite).
  - apply finite_sub.
  - apply Forall_map. revert HS. apply Forall_impl. intros x Hx.
    apply finite_mul; [exact Logic.I |]. apply finite_add; [exact Logic.I |].
    apply finite_div; [| lra]. apply finite_mul; [exact Logic.I | exact Hx].
  - apply Forall_map. revert HI. apply Forall_impl. intros x Hx.
    apply finite_mul; [exact Hx | exact Logic.I].
Qed.

(** X14.  With [current_value = 0] the noise flag changes nothing, since
    the noise is scaled by [current_value]: on a simulator whose
    [capacity_Ah] is not zero and whose [initial_soc] is within [0, 100],
    for a horizon other than zero and any supported profile, with or
    without noise, every current sample and every power sample is 0 and
    every sample of [SOC_percent] is [initial_soc]. *)
Theorem zero_current_ignores_noise (c s v : R) (g : rng) (th : R) (p : string)
    (noise : bool) :
  c <> 0 -> th <> 0 -> 0 <= s <= 100 ->
  match value_of (discharge_simulation th p 0 noise) (new_world c s v g) with
  | inr r =>
      Forall (fun i => i = Fin 0) (current_A r) /\
      Forall (fun soc => soc = Fin s) (SOC_percent r) /\
      Forall (fun pw => pw = Fin 0) (power_W r)
  | inl _ => ~ In p supported_profiles
  end.
Proof.
  intros Hc Hth Hs. rewrite discharge_simulation_value.
  set (w := new_world c s v g).
  pose proof (profile_current_supported th p 0 (random_state w)) as Hsup.
  pose proof (length_profile_current th p 0 (random_state w)) as HL.
  pose proof (zero_profile_current th p (random_state w) Hth) as HZ.
  destruct (profile_current th p 0 (random_state w)) as [Iu |]; [| exact Hsup].
  pose proof (length_with_noise 0 noise (random_state w) Iu HL) as HL'.
  pose proof (zero_with_noise noise (random_state w) Iu HZ) as HZ'.
  set (I := with_noise 0 noise (random_state w) Iu) in *.
  unfold result_of. cbv beta iota zeta delta [current_A SOC_percent power_W].
  destruct (scaled_factor_nonzero (capacity_As (self w)) (avg_capacity (self w) I))
    as [a [Ha Ha0]].
  { unfold w, new_world, __init__. cbn [self capacity_As]. lra. }
  { apply avg_capacity_scaled. rewrite HL'. lia. }
  assert (HS : Forall (fun soc => soc = Fin s) (soc_series (self w) (time_grid th) I)).
  { apply (soc_series_zero_charge (self w) (time_grid th) I a);
      auto using finite_time_grid. }
  split; [exact HZ' |]. split; [exact HS |].
  apply zero_power; [| exact HZ'].
  apply finite_voltage_series.
  - revert HS. apply Forall_impl. intros x ->. exact Logic.I.
  - revert HZ'. apply Forall_impl. intros x ->. exact Logic.I.
Qed.

Lemma zero_current_ignores_noise_witness :
  10 <> 0 /\ 3 <> 0 /\ 0 <= 80 <= 100 /\
  match value_of (discharge_simulation 3 "random" 0 true)
                 (new_world 10 80 12 (fun _ => 0)) with
  | inr r =>
      Forall (fun i => i = Fin 0) (current_A r) /\
      Forall (fun soc => soc = Fin 80) (SOC_percent r) /\
      Forall (fun pw => pw = Fin 0) (power_W r)
  | inl _ => ~ In "random"%string supported_profiles
  end.
Proof.
  split; [lra |]. split; [lra |]. split; [lra |].
  apply (zero_current_ignores_noise 10 80 12 (fun _ => 0) 3 "random" true); lra.
Defined.

(** ** The pulsed profile: the values it takes *)

(** X15.  Every sample of the pulsed profile without noise is one of
    three numbers: 0, [current_value], or half of [current_value] (where
    the sine is exactly zero and [np.sign] returns 0). *)
Theorem pulsed_current_three_values (th cv : R) (w : World) :
  match value_of (discharge_simulation th "pulsed" cv false) w with
  | inr r =>
      length (current_A r) = 1000%nat /\
      Forall (fun i => i = Fin 0 \/ i = Fin (cv / 2) \/ i = Fin cv) (current_A r)
  | inl _ => False
  end.
Proof.
  rewrite pulsed_profile_value. unfold result_of.
  cbv beta iota zeta delta [current_A]. split.
  - now rewrite length_map, length_time_grid.
  - apply Forall_map. generalize (finite_time_grid th). apply Forall_impl.
    intros ti Hti. destruct (finite_inv ti Hti) as [t ->].
    apply pulsed_sample_three_values.
Qed.

(** ** The effective capacity as a function of the current *)

Lemma real_power_monotone (x y e : R) :
  0 < e -> 0 <= x <= y -> real_power x e <= real_power y e.
Proof.
  intros He [Hx Hxy]. unfold real_power.
  destruct (Req_dec_T x 0) as [-> | Hx0]; destruct (Req_dec_T y 0) as [-> | Hy0];
    try lra.
  - left. apply exp_pos.
  - apply Rle_Rpower_l; lra.
Qed.

Lemma clamp_monotone (x y : R) : x <= y -> clamp x 0.3 2.0 <= clamp y 0.3 2.0.
Proof.
  intros H. unfold clamp.
  rewrite !(Rmax_comm 0.3), !(Rmin_comm 2.0).
  apply Rle_max_compat_r, Rle_min_compat_r. exact H.
Qed.

(** X16.  Peukert's law as coded: on a simulator with [capacity_Ah >= 0],
    among positive currents a higher current never has a larger effective
    capacity. *)
Theorem peukert_capacity_antitone (c s v : R) (g : rng) (I1 I2 : R) :
  0 <= c -> 0 < I1 <= I2 ->
  exists e1 e2,
    value_of (peukert_capacity (Fin I1)) (new_world c s v g) = inr (Fin e1) /\
    value_of (peukert_capacity (Fin I2)) (new_world c s v g) = inr (Fin e2) /\
    e2 <= e1.
Proof.
  intros Hc [H1 H12]. set (this := __init__ c s v).
  exists (peukert_reference this I1), (peukert_reference this I2).
  assert (Hv : forall I, value_of (peukert_capacity (Fin I)) (new_world c s v g)
                         = inr (Fin (peukert_reference this I))).
  { intros I. unfold value_of. rewrite peukert_capacity_run. cbn [fst].
    unfold new_world. cbn [self]. fold this.
    rewrite peukert_value_reference; [reflexivity | |];
      unfold this, __init__; cbn [capacity_Ah peukert_exponent]; lra. }
  split; [apply Hv |]. split; [apply Hv |].
  unfold peukert_reference, this, __init__.
  cbn [capacity_Ah capacity_As peukert_exponent].
  destruct (Rle_dec I1 0); [lra |]. destruct (Rle_dec I2 0); [lra |].
  apply Rmult_le_compat_l; [lra |].
  apply clamp_monotone, real_power_monotone; [lra |].
  assert (Hinv : / I2 <= / I1) by (apply Rinv_le_contravar; lra).
  assert (0 < / I2) by (apply Rinv_0_lt_compat; lra).
  unfold Rdiv. split.
  - apply Rmult_le_pos; lra.
  - apply Rmult_le_compat_l; lra.
Qed.

Lemma peukert_capacity_antitone_witness :
  0 <= 10 /\ 0 < 1 <= 5 /\
  exists e1 e2,
    value_of (peukert_capacity (Fin 1)) (new_world 10 100 12 (fun _ => 0))
      = inr (Fin e1) /\
    value_of (peukert_capacity (Fin 5)) (new_world 10 100 12 (fun _ => 0))
      = inr (Fin e2) /\
    e2 <= e1.
Proof.
  split; [lra |]. split; [lra |].
  apply (peukert_capacity_antitone 10 100 12 (fun _ => 0) 1 5); lra.
Defined.

Lemma Rpower_tenth_of_tenth_power (x : R) : 0 < x -> Rpower (x ^ 10) (1.1 - 1) = x.
Proof.
  intros Hx. rewrite <- (Rpower_pow 10 x Hx), Rpower_mult.
  replace (INR 10 * (1.1 - 1)) with 1.
  - now apply Rpower_1.
  - rewrite INR_IZR_INZ. cbn [Z.of_nat Pos.of_succ_nat Pos.succ]. lra.
Qed.

Lemma real_power_tenth_of_tenth_power (x : R) :
  0 < x -> real_power (x ^ 10) (1.1 - 1) = x.
Proof.
  intros Hx. unfold real_power.
  assert (0 < x ^ 10) by (apply pow_lt; exact Hx).
  destruct (Req_dec_T (x ^ 10) 0); [lra |].
  now apply Rpower_tenth_of_tenth_power.
Qed.

Lemma peukert_value_of_new (c s v : R) (g : rng) (I : R) :
  0 <= c ->
  value_of (peukert_capacity (Fin I)) (new_world c s v g)
  = inr (Fin (peukert_reference (__init__ c s v) I)).
Proof.
  intros Hc. unfold value_of. rewrite peukert_capacity_run. cbn [fst].
  unfold new_world. cbn [self].
  rewrite peukert_value_reference; [reflexivity | |];
    unfold __init__; cbn [capacity_Ah peukert_exponent]; lra.
Qed.

(** X17.  Where the clamp of the Peukert factor takes over, on a simulator
    with [capacity_Ah > 0] and reference current [I_ref = capacity_Ah / 20]:
    a positive current of at most [I_ref / 1024] has twice the nominal
    capacity, a current of at least [I_ref / 0.3^10] has 0.3 times the
    nominal capacity, and the current 0 has the nominal capacity itself, so
    the effective capacity jumps from [capacity_As] to [2 * capacity_As] as
    the current leaves zero. *)
Theorem peukert_capacity_saturates (c s v : R) (g : rng) :
  0 < c ->
  (forall I, 0 < I -> 1024 * I <= c / 20 ->
     value_of (peukert_capacity (Fin I)) (new_world c s v g)
     = inr (Fin (2 * (c * 3600)))) /\
  (forall I, 0 < I -> c / 20 <= 0.3 ^ 10 * I ->
     value_of (peukert_capacity (Fin I)) (new_world c s v g)
     = inr (Fin (0.3 * (c * 3600)))) /\
  value_of (peukert_capacity (Fin 0)) (new_world c s v g) = inr (Fin (c * 3600)).
Proof.
  intros Hc. split; [| split].
  - intros I HI Hlow. rewrite peukert_value_of_new by lra. do 2 f_equal.
    unfold peukert_reference, __init__. cbn [capacity_Ah capacity_As peukert_exponent].
    destruct (Rle_dec I 0); [lra |].
    assert (Hb : 2 ^ 10 <= c / 20 / I).
    { apply Rmult_le_reg_r with I; [exact HI |].
      unfold Rdiv at 1. rewrite Rmult_assoc, Rinv_l by lra. lra. }
    assert (Hp : 2 <= real_power (c / 20 / I) (1.1 - 1)).
    { apply Rle_trans with (real_power (2 ^ 10) (1.1 - 1)).
      - rewrite real_power_tenth_of_tenth_power; lra.
      - apply real_power_monotone; lra. }
    unfold clamp. rewrite Rmin_left by lra. rewrite Rmax_right by lra. lra.
  - intros I HI Hhigh. rewrite peukert_value_of_new by lra. do 2 f_equal.
    unfold peukert_reference, __init__. cbn [capacity_Ah capacity_As peukert_exponent].
    destruct (Rle_dec I 0); [lra |].
    assert (H0 : 0 <= c / 20 / I).
    { apply Rmult_le_pos; [lra |]. left. apply Rinv_0_lt_compat. exact HI. }
    assert (Hb : c / 20 / I <= 0.3 ^ 10).
    { apply Rmult_le_reg_r with I; [exact HI |].
      unfold Rdiv at 1. rewrite Rmult_assoc, Rinv_l by lra. lra. }
    assert (Hp : real_power (c / 20 / I) (1.1 - 1) <= 0.3).
    { apply Rle_trans with (real_power (0.3 ^ 10) (1.1 - 1)).
      - apply real_power_monotone; lra.
      - rewrite real_power_tenth_of_tenth_power; lra. }
    unfold clamp. rewrite (Rmax_left 0.3); [lra |].
    apply Rle_trans with (real_power (c / 20 / I) (1.1 - 1)); [apply Rmin_r | exact Hp].
  - rewrite peukert_value_of_new by lra. do 2 f_equal.
    unfold peukert_reference, __init__. cbn [capacity_Ah capacity_As peukert_exponent].
    destruct (Rle_dec 0 0); [reflexivity | lra].
Qed.

Lemma peukert_capacity_saturates_witness :
  0 < 10 /\
  value_of (peukert_capacity (Fin 0.0001)) (new_world 10 100 12 (fun _ => 0))
  = inr (Fin (2 * (10 * 3600))) /\
  value_of (peukert_capacity (Fin 100000)) (new_world 10 100 12 (fun _ => 0))
  = inr (Fin (0.3 * (10 * 3600))) /\
  value_of (peukert_capacity (Fin 0)) (new_world 10 100 12 (fun _ => 0))
  = inr (Fin (10 * 3600)).
Proof.
  assert (Hc : 0 < 10) by lra.
  destruct (peukert_capacity_saturates 10 100 12 (fun _ => 0) Hc) as [Hlow [Hhigh H0]].
  split; [exact Hc |]. split; [| split].
  - apply Hlow; lra.
  - apply Hhigh; [lra |]. cbn [pow]. lra.
  - exact H0.
Defined.

(** ** The summary *)

Lemma where_from_nil (i : nat) (c : list bool) :
  where_from i c = [] -> Forall (fun b => b = false) c.
Proof.
  revert i. induction c as [| b c IH]; intros i H; [constructor |].
  cbn [where_from] in H. destruct b; [discriminate |].
  constructor; [reflexivity | exact (IH _ H)].
Qed.

Lemma where_from_cons (i : nat) (c : list bool) (k : nat) (rest : list nat) :
  where_from i c = k :: rest ->
  exists j, k = (i + j)%nat /\ nth_error c j = Some true /\
            forall j', (j' < j)%nat -> nth_error c j' = Some false.
Proof.
  revert i. induction c as [| b c IH]; intros i H; cbn [where_from] in H;
    [discriminate |].
  destruct b.
  - exists 0%nat. injection H as <- _. repeat split; [lia | intros j' Hj'; lia].
  - destruct (IH _ H) as (j & -> & Hj & Hlt). exists (S j).
    repeat split; [lia | exact Hj |].
    intros [| j'] Hj'; [reflexivity |]. cbn [nth_error]. apply Hlt. lia.
Qed.

Lemma where_first_depleted (soc : ndarray) (k : nat) (rest : list nat) :
  where_ (map depleted soc) = k :: rest -> first_depleted soc k.
Proof.
  intros H. unfold where_ in H.
  destruct (where_from_cons _ _ _ _ H) as (j & -> & Hj & Hlt). cbn [Nat.add].
  split.
  - rewrite nth_error_map in Hj. destruct (nth_error soc j) as [s |]; [| discriminate].
    exists s. split; [reflexivity |]. now injection Hj.
  - intros j' s Hj' Hs. specialize (Hlt j' Hj'). rewrite nth_error_map, Hs in Hlt.
    now injection Hlt.
Qed.

Lemma where_never_depleted (soc : ndarray) :
  where_ (map depleted soc) = [] -> never_depleted soc.
Proof.
  intros H. apply where_from_nil in H. unfold never_depleted.
  rewrite Forall_map in H. exact H.
Qed.

Lemma first_depleted_lt (soc : ndarray) (k : nat) :
  first_depleted soc k -> (k < length soc)%nat.
Proof.
  intros [(s & Hs & _) _]. apply nth_error_Some. now rewrite Hs.
Qed.

Lemma broadcast_run (f : float64 -> float64 -> float64) (a b : ndarray) (out : list line) :
  exists r, broadcast f a b out = (r, out) /\
    (length a = length b -> r = inr (zip_with f a b)) /\
    (forall e, r = inl e -> e = BroadcastError /\ length a <> length b).
Proof.
  unfold broadcast. destruct (length a =? length b)%nat eqn:E.
  - apply Nat.eqb_eq in E. eexists. split; [reflexivity |]. split; [reflexivity |].
    intros e He. discriminate.
  - apply Nat.eqb_neq in E.
    destruct a as [| x [| x' a]]; destruct b as [| y [| y' b]];
      (eexists; split; [reflexivity |]; split; [intros; contradiction |]);
      intros e He; try discriminate; injection He as <-; (split; [reflexivity | exact E]).
Qed.

Lemma trapz_run (y x : ndarray) (out : list line) :
  exists r, trapz y x out = (r, out) /\
    (length y = length x ->
     r = inr (fold_left add (trapezoid_increments y x) (Fin 0))) /\
    (forall e, r = inl e -> e = BroadcastError /\ length y <> length x).
Proof.
  unfold trapz. cbv zeta. unfold out_bind.
  destruct (broadcast_run mul (diff x) (zip_with add (tl y) (removelast y)) out)
    as (r & -> & Hok & Herr).
  destruct r as [e | p].
  - eexists. split; [reflexivity |]. split.
    + intros HL. exfalso. destruct (Herr e eq_refl) as [_ Hne]. apply Hne.
      rewrite length_diff, length_zip_with, length_tl, length_removelast. lia.
    + intros e' He'. injection He' as <-. destruct (Herr e eq_refl) as [-> Hne].
      split; [reflexivity |]. intros HL. apply Hne.
      rewrite length_diff, length_zip_with, length_tl, length_removelast. lia.
  - eexists. split; [reflexivity |]. split; [| intros e He; discriminate].
    intros HL. unfold out_ret. f_equal.
    assert (Hp : inr p = @inr summary_exn _ (zip_with mul (diff x) (zip_with add (tl y) (removelast y)))).
    { apply Hok. rewrite length_diff, length_zip_with, length_tl, length_removelast. lia. }
    injection Hp as ->. reflexivity.
Qed.

Lemma discharge_time_run (results : SimulationResult) (out : list line) :
  exists r,
    match where_ (map (fun s => leb s (Fin 0)) (SOC_percent results)) with
    | k :: _ => getitem (time_hours results) k
    | [] => getitem_last (time_hours results)
    end out = (r, out) /\
    match r with
    | inl e =>
        e = IndexError /\
        (time_hours results = [] \/
         (length (time_hours results) < length (SOC_percent results))%nat)
    | inr dt =>
        (exists k, first_depleted (SOC_percent results) k /\
                   nth_error (time_hours results) k = Some dt) \/
        (never_depleted (SOC_percent results) /\
         nth_error (time_hours results) (length (time_hours results) - 1) = Some dt)
    end.
Proof.
  change (map (fun s => leb s (Fin 0)) (SOC_percent results))
    with (map depleted (SOC_percent results)).
  destruct (where_ (map depleted (SOC_percent results))) as [| k rest] eqn:E.
  - apply where_never_depleted in E. unfold getitem_last.
    destruct (length (time_hours results)) as [| n] eqn:Hn.
    + eexists. split; [reflexivity |]. split; [reflexivity |]. left.
      now apply length_zero_iff_nil.
    + unfold getitem. replace (S n - 1)%nat with n by lia.
      destruct (nth_error (time_hours results) n) as [dt |] eqn:Hk.
      * eexists. split; [reflexivity |]. right. split; [exact E | reflexivity].
      * exfalso. apply nth_error_None in Hk. lia.
  - apply where_first_depleted in E. unfold getitem.
    destruct (nth_error (time_hours results) k) as [dt |] eqn:Hk.
    + eexists. split; [reflexivity |]. left. exists k. split; [exact E | exact Hk].
    + eexists. split; [reflexivity |]. split; [reflexivity |]. right.
      apply nth_error_None in Hk. apply first_depleted_lt in E. lia.
Qed.

Ltac run_summary this results :=
  unfold print_summary; cbv zeta; unfold out_bind, print;
  match goal with
  | |- context [match where_ ?c with [] => ?a | k :: _ => @?b k end ?o] =>
      let r := fresh "r" in
      let E := fresh "E" in
      let H := fresh "Ht" in
      destruct (discharge_time_run results o) as (r & E & H);
      rewrite E
  end.

(** X18.  How [print_summary] ends on any result dictionary, and how many
    lines it has printed by then.  It raises [IndexError] after the three
    header lines only if [time_hours] is empty or shorter than
    [SOC_percent]; it raises on the maximum of an empty [current_A] after
    nine lines; it raises on [np.trapz] after fourteen lines only if
    [power_W] and [time_seconds] differ in length; otherwise it returns
    having printed twenty lines. *)
Theorem print_summary_outcomes (this : Batterysimulator) (results : SimulationResult) :
  match outcome (print_summary this results) with
  | inr _ => length (printed (print_summary this results)) = 20%nat
  | inl IndexError =>
      length (printed (print_summary this results)) = 3%nat /\
      (time_hours results = [] \/
       (length (time_hours results) < length (SOC_percent results))%nat)
  | inl ZeroSizeReduction =>
      length (printed (print_summary this results)) = 9%nat /\
      current_A results = []
  | inl BroadcastError =>
      length (printed (print_summary this results)) = 14%nat /\
      length (power_W results) <> length (time_seconds results)
  end.
Proof.
  unfold outcome, printed. run_summary this results. clear E.
  destruct r as [e | dt]; cbv beta iota.
  - destruct Ht as [-> Ht]. cbn [fst snd]. split; [reflexivity | exact Ht].
  - unfold amax, amin. destruct (current_A results) as [| x a]; unfold out_raise, out_ret.
    + cbn [fst snd]. split; reflexivity.
    + match goal with
      | |- context [trapz ?y ?x ?o] =>
          destruct (trapz_run y x o) as (r & E & Hok & Herr); rewrite E; clear E
      end.
      destruct r as [e | en]; cbv beta iota; cbn [fst snd].
      * destruct (Herr e eq_refl) as [-> Hne]. split; [reflexivity | exact Hne].
      * reflexivity.
Qed.

(** What [print_summary] prints when nothing raises. *)
Lemma print_summary_lines (this : Batterysimulator) (results : SimulationResult) :
  (0 < length (time_hours results))%nat ->
  (length (SOC_percent results) <= length (time_hours results))%nat ->
  (0 < length (current_A results))%nat ->
  length (power_W results) = length (time_seconds results) ->
  exists dt x a,
    ((exists k, first_depleted (SOC_percent results) k /\
                nth_error (time_hours results) k = Some dt) \/
     (never_depleted (SOC_percent results) /\
      nth_error (time_hours results) (length (time_hours results) - 1) = Some dt)) /\
    current_A results = x :: a /\
    outcome (print_summary this results) = inr tt /\
    length (printed (print_summary this results)) = 20%nat /\
    nth 8 (printed (print_summary this results)) [] =
      [Text "  - Average Current: "%string; Fixed2 (mean (current_A results));
       Text " A"%string] /\
    nth 9 (printed (print_summary this results)) [] =
      [Text "  - Max Current: "%string; Fixed2 (fold_left maximum a x);
       Text " A"%string] /\
    nth 10 (printed (print_summary this results)) [] =
      [Text "  - Min Current: "%string; Fixed2 (fold_left minimum a x);
       Text " A"%string] /\
    nth 12 (printed (print_summary this results)) [] = discharge_time_line dt /\
    nth 13 (printed (print_summary this results)) [] =
      [Text "  - Average Voltage: "%string; Fixed2 (mean (voltage_V results));
       Text " V"%string] /\
    nth 14 (printed (print_summary this results)) [] =
      [Text "  - Energy Delivered: "%string;
       Fixed2 (div (fold_left add
                      (trapezoid_increments (power_W results) (time_seconds results))
                      (Fin 0))
                   (Fin 3600));
       Text " Wh"%string].
Proof.
  intros Hth Hsoc HI Hpw.
  unfold outcome, printed. run_summary this results. clear E.
  destruct r as [e | dt].
  { exfalso. destruct Ht as [_ [H0 | Hlt]]; [rewrite H0 in Hth; cbn in Hth |]; lia. }
  cbv beta iota. unfold amax, amin.
  destruct (current_A results) as [| x a] eqn:Hcur; [cbn in HI; lia |].
  unfold out_ret.
  match goal with
  | |- context [trapz ?y ?x ?o] =>
      destruct (trapz_run y x o) as (r & E & Hok & Herr); rewrite E; clear E
  end.
  rewrite (Hok Hpw). cbv beta iota. cbn [fst snd].
  exists dt, x, a. split; [exact Ht |]. split; [reflexivity |].
  repeat split.
Qed.

(** ** The summary of a simulation *)

Lemma result_fits_summary (this : Batterysimulator) (t I : ndarray) :
  (0 < length t)%nat -> length I = length t ->
  length (time_hours (result_of this t I)) = length t /\
  length (SOC_percent (result_of this t I)) = length t /\
  length (current_A (result_of this t I)) = length t /\
  length (power_W (result_of this t I)) = length (time_seconds (result_of this t I)).
Proof.
  intros Ht HI. unfold result_of.
  cbv beta iota zeta delta [time_hours time_seconds SOC_percent current_A power_W].
  assert (Hs : length (soc_series this t I) = length t)
    by (apply length_soc_series; assumption).
  rewrite length_map, Hs, HI, length_zip_with, length_voltage_series, HI
    by (rewrite Hs, HI; reflexivity).
  repeat split. apply Nat.min_id.
Qed.

Lemma nth_time_hours (th : R) (i : nat) :
  (i < 1000)%nat ->
  nth i (map (fun ti => div ti (Fin 3600)) (time_grid th)) NaN =
  Fin (INR i * (th * 3600 / 999) / 3600).
Proof.
  intros Hi. rewrite (nth_map_lt _ _ _ _ NaN) by (rewrite length_time_grid; exact Hi).
  rewrite nth_time_grid by exact Hi. apply div_Fin. lra.
Qed.

(** The summary of the result of a simulation over the grid of [th] hours. *)
Lemma simulation_summary (this : Batterysimulator) (th : R) (I : ndarray) :
  length I = 1000%nat ->
  exists dt x a,
    ((exists k, first_depleted (soc_series this (time_grid th) I) k /\
                (k < 1000)%nat /\
                dt = Fin (INR k * (th * 3600 / 999) / 3600)) \/
     (never_depleted (soc_series this (time_grid th) I) /\ dt = Fin th)) /\
    I = x :: a /\
    outcome (print_summary this (result_of this (time_grid th) I)) = inr tt /\
    length (printed (print_summary this (result_of this (time_grid th) I))) = 20%nat /\
    nth 8 (printed (print_summary this (result_of this (time_grid th) I))) [] =
      [Text "  - Average Current: "%string; Fixed2 (mean I); Text " A"%string] /\
    nth 9 (printed (print_summary this (result_of this (time_grid th) I))) [] =
      [Text "  - Max Current: "%string; Fixed2 (fold_left maximum a x);
       Text " A"%string] /\
    nth 10 (printed (print_summary this (result_of this (time_grid th) I))) [] =
      [Text "  - Min Current: "%string; Fixed2 (fold_left minimum a x);
       Text " A"%string] /\
    nth 12 (printed (print_summary this (result_of this (time_grid th) I))) [] =
      discharge_time_line dt /\
    nth 14 (printed (print_summary this (result_of this (time_grid th) I))) [] =
      [Text "  - Energy Delivered: "%string;
       Fixed2 (div (fold_left add
                      (trapezoid_increments
                         (zip_with mul
                            (voltage_series this (soc_series this (time_grid th) I) I) I)
                         (time_grid th))
                      (Fin 0))
                   (Fin 3600));
       Text " Wh"%string].
Proof.
  intros HI.
  pose proof (length_time_grid th) as Hg.
  destruct (result_fits_summary this (time_grid th) I) as (H1 & H2 & H3 & H4);
    [rewrite Hg; lia | rewrite Hg; exact HI |].
  destruct (print_summary_lines this (result_of this (time_grid th) I))
    as (dt & x & a & Hdt & Hcur & Hout & Hlen & L8 & L9 & L10 & L12 & L13 & L14);
    [rewrite H1, Hg; lia | rewrite H1, H2; lia | rewrite H3, Hg; lia | exact H4 |].
  exists dt, x, a. repeat split; try assumption.
  destruct Hdt as [(k & Hk & Hn) | (Hnone & Hn)].
  - left. exists k. split; [exact Hk |].
    assert (Hlt : (k < 1000)%nat).
    { apply first_depleted_lt in Hk. rewrite H2, Hg in Hk. exact Hk. }
    split; [exact Hlt |].
    apply (nth_error_nth _ _ NaN) in Hn. rewrite <- Hn.
    apply (nth_time_hours th k Hlt).
  - right. split; [exact Hnone |].
    rewrite H1, Hg in Hn. change (1000 - 1)%nat with 999%nat in Hn.
    apply (nth_error_nth _ _ NaN) in Hn. rewrite <- Hn.
    transitivity (Fin (INR 999 * (th * 3600 / 999) / 3600)).
    + apply (nth_time_hours th 999). lia.
    + rewrite INR_999_lit. f_equal. field.
Qed.

(** X19.  [print_summary] never raises on the result of a simulation: it
    prints its 20 lines and returns. *)
Theorem summary_after_simulation (th : R) (p : string) (cv : R) (noise : bool)
    (w : World) :
  match value_of (discharge_simulation th p cv noise) w with
  | inr r =>
      outcome (print_summary (self w) r) = inr tt /\
      length (printed (print_summary (self w) r)) = 20%nat
  | inl _ => ~ In p supported_profiles
  end.
Proof.
  destruct (call_outcome th p cv noise w) as [[Iu [_ [HL [_ ->]]]] | [Hp ->]];
    [| exact Hp].
  destruct (simulation_summary (self w) th _ HL)
    as (dt & x & a & _ & _ & Hout & Hlen & _).
  split; [exact Hout | exact Hlen].
Qed.

(** X20.  The time to full discharge that [print_summary] reports for the
    result of a simulation: the time in hours of the first sample whose
    state of charge is at most zero, which is [k * time_hours / 999] for
    its index [k]; and when no sample is (none has reached zero, or the
    state of charge is NaN), the whole horizon [time_hours]. *)
Theorem summary_discharge_time (th : R) (p : string) (cv : R) (noise : bool)
    (w : World) :
  match value_of (discharge_simulation th p cv noise) w with
  | inr r =>
      exists dt,
        nth 12 (printed (print_summary (self w) r)) [] = discharge_time_line dt /\
        ((exists k, first_depleted (SOC_percent r) k /\ (k < 1000)%nat /\
                    dt = Fin (INR k * (th * 3600 / 999) / 3600)) \/
         (never_depleted (SOC_percent r) /\ dt = Fin th))
  | inl _ => ~ In p supported_profiles
  end.
Proof.
  destruct (call_outcome th p cv noise w) as [[Iu [_ [HL [_ ->]]]] | [Hp ->]];
    [| exact Hp].
  destruct (simulation_summary (self w) th _ HL)
    as (dt & x & a & Hdt & _ & _ & _ & _ & _ & _ & L12 & _).
  exists dt. split; [exact L12 | exact Hdt].
Qed.

Lemma fold_maximum_const (x : R) (l : ndarray) :
  Forall (fun v => v = Fin x) l -> fold_left maximum l (Fin x) = Fin x.
Proof.
  induction 1 as [| v l -> _ IH]; [reflexivity |].
  cbn [fold_left]. replace (maximum (Fin x) (Fin x)) with (Fin x); [exact IH |].
  unfold maximum, ltb. destruct (Rlt_dec x x); reflexivity.
Qed.

Lemma fold_minimum_const (x : R) (l : ndarray) :
  Forall (fun v => v = Fin x) l -> fold_left minimum l (Fin x) = Fin x.
Proof.
  induction 1 as [| v l -> _ IH]; [reflexivity |].
  cbn [fold_left]. replace (minimum (Fin x) (Fin x)) with (Fin x); [exact IH |].
  unfold minimum, ltb. destruct (Rlt_dec x x); reflexivity.
Qed.

Lemma Forall_full_like (a : ndarray) (v : R) :
  Forall (fun x => x = Fin v) (full_like a v).
Proof. unfold full_like. apply Forall_map. apply Forall_forall. reflexivity. Qed.

(** X21.  The summary of the constant profile without noise reports
    [current_value] itself as the maximum and as the minimum current, and
    as the average current a number within a relative tolerance of
    [1e-12] of it.  (The average equals [current_value] in exact
    arithmetic; the program's sum of 1000 doubles rounds, and the two
    decimals printed can differ from those of the maximum.) *)
Theorem constant_summary_currents (th cv : R) (w : World) :
  match value_of (discharge_simulation th "constant" cv false) w with
  | inr r =>
      (exists a,
         nth 8 (printed (print_summary (self w) r)) [] =
           [Text "  - Average Current: "%string; Fixed2 (Fin a); Text " A"%string] /\
         Rabs (a - cv) <= 1e-12 * Rabs cv) /\
      nth 9 (printed (print_summary (self w) r)) [] =
        [Text "  - Max Current: "%string; Fixed2 (Fin cv); Text " A"%string] /\
      nth 10 (printed (print_summary (self w) r)) [] =
        [Text "  - Min Current: "%string; Fixed2 (Fin cv); Text " A"%string]
  | inl _ => False
  end.
Proof.
  rewrite constant_profile_value.
  assert (HL : length (full_like (time_grid th) cv) = 1000%nat)
    by (rewrite length_full_like; apply length_time_grid).
  pose proof (Forall_full_like (time_grid th) cv) as HF.
  destruct (simulation_summary (self w) th _ HL)
    as (dt & x & a & _ & Hcur & _ & _ & L8 & L9 & L10 & _).
  rewrite L8, L9, L10.
  rewrite (mean_const cv _ ltac:(rewrite HL; lia) HF).
  rewrite Hcur in HF. inversion HF as [| x' a' Hx Ha]; subst.
  rewrite fold_maximum_const, fold_minimum_const by exact Ha.
  split; [| split; reflexivity].
  exists cv. split; [reflexivity | apply within_tolerance_refl; lra].
Qed.

(** ** The reported discharge time under a constant current *)






(** ** The summary of a simulation without current *)

Lemma zero_increments (y x : ndarray) :
  Forall finite x -> Forall is_zero y -> Forall is_zero (trapezoid_increments y x).
Proof.
  intros Hx Hy.
  apply Forall_trapezoid_increments with (D := finite) (Q := is_zero).
  - intros d u v Hd -> ->. destruct (finite_inv d Hd) as [x0 ->].
    cbn [add mul]. rewrite div_Fin by lra. unfold is_zero. f_equal. field.
  - now apply finite_diff.
  - exact Hy.
Qed.

Lemma sum_zero (l : ndarray) : Forall is_zero l -> fold_left add l (Fin 0) = Fin 0.
Proof. intros H. rewrite (fold_add_const 0 l 0 H). f_equal. ring. Qed.

Lemma div_zero_Fin (y : R) : y <> 0 -> div (Fin 0) (Fin y) = Fin 0.
Proof. intros Hy. rewrite div_Fin by exact Hy. f_equal. unfold Rdiv. ring. Qed.

(** X23.  The summary of a simulation with [current_value = 0], on a
    simulator whose [capacity_Ah] is not zero and whose [initial_soc] is
    within (0, 100], for a horizon other than zero and any supported
    profile, with or without noise: the average, maximum and minimum
    current and the energy delivered are reported as 0, and, the state of
    charge never reaching zero, the time to full discharge is reported as
    the whole horizon [time_hours]. *)
Theorem zero_current_summary (c s v : R) (g : rng) (th : R) (p : string)
    (noise : bool) :
  c <> 0 -> th <> 0 -> 0 < s <= 100 ->
  match value_of (discharge_simulation th p 0 noise) (new_world c s v g) with
  | inr r =>
      nth 8 (printed (print_summary (self (new_world c s v g)) r)) [] =
        [Text "  - Average Current: "%string; Fixed2 (Fin 0); Text " A"%string] /\
      nth 9 (printed (print_summary (self (new_world c s v g)) r)) [] =
        [Text "  - Max Current: "%string; Fixed2 (Fin 0); Text " A"%string] /\
      nth 10 (printed (print_summary (self (new_world c s v g)) r)) [] =
        [Text "  - Min Current: "%string; Fixed2 (Fin 0); Text " A"%string] /\
      nth 12 (printed (print_summary (self (new_world c s v g)) r)) [] =
        discharge_time_line (Fin th) /\
      nth 14 (printed (print_summary (self (new_world c s v g)) r)) [] =
        [Text "  - Energy Delivered: "%string; Fixed2 (Fin 0); Text " Wh"%string]
  | inl _ => ~ In p supported_profiles
  end.
Proof.
  intros Hc Hth Hs. rewrite discharge_simulation_value.
  set (w := new_world c s v g).
  pose proof (profile_current_supported th p 0 (random_state w)) as Hsup.
  pose proof (length_profile_current th p 0 (random_state w)) as HL.
  pose proof (zero_profile_current th p (random_state w) Hth) as HZ.
  destruct (profile_current th p 0 (random_state w)) as [Iu |]; [| exact Hsup].
  pose proof (length_with_noise 0 noise (random_state w) Iu HL) as HL'.
  pose proof (zero_with_noise noise (random_state w) Iu HZ) as HZ'.
  set (I := with_noise 0 noise (random_state w) Iu) in *.
  destruct (scaled_factor_nonzero (capacity_As (self w)) (avg_capacity (self w) I))
    as [a [Ha Ha0]].
  { unfold w, new_world, __init__. cbn [self capacity_As]. lra. }
  { apply avg_capacity_scaled. rewrite HL'. lia. }
  assert (HS : Forall (fun soc => soc = Fin s) (soc_series (self w) (time_grid th) I)).
  { apply (soc_series_zero_charge (self w) (time_grid th) I a);
      auto using finite_time_grid. cbn [w new_world self __init__ initial_SOC]. lra. }
  assert (HP : Forall is_zero
                 (zip_with mul (voltage_series (self w)
                                  (soc_series (self w) (time_grid th) I) I) I)).
  { apply zero_power; [| exact HZ'].
    apply finite_voltage_series.
    - revert HS. apply Forall_impl. intros x ->. exact Logic.I.
    - revert HZ'. apply Forall_impl. intros x ->. exact Logic.I. }
  destruct (simulation_summary (self w) th I HL')
    as (dt & x & a0 & Hdt & Hcur & _ & _ & L8 & L9 & L10 & L12 & L14).
  rewrite L8, L9, L10, L12, L14.
  rewrite (mean_const 0 I ltac:(rewrite HL'; lia) HZ').
  rewrite (sum_zero _ (zero_increments _ _ (finite_time_grid th) HP)).
  rewrite div_zero_Fin by lra.
  rewrite Hcur in HZ'. inversion HZ' as [| x' a' Hx Ha']; subst x' a'.
  rewrite Hx. rewrite fold_maximum_const, fold_minimum_const by exact Ha'.
  assert (Hdt' : dt = Fin th).
  { destruct Hdt as [(k & [(sk & Hsk & Hdep) _] & _ & _) | (_ & Hdt)]; [| exact Hdt].
    exfalso. rewrite Forall_forall in HS.
    apply nth_error_In in Hsk. rewrite (HS _ Hsk) in Hdep.
    unfold depleted in Hdep. apply leb_Fin in Hdep. lra. }
  rewrite Hdt'. repeat split.
Qed.

Lemma zero_current_summary_witness :
  10 <> 0 /\ 3 <> 0 /\ 0 < 80 <= 100 /\
  match value_of (discharge_simulation 3 "random" 0 true)
                 (new_world 10 80 12 (fun _ => 0)) with
  | inr r =>
      nth 8 (printed (print_summary (self (new_world 10 80 12 (fun _ => 0))) r)) [] =
        [Text "  - Average Current: "%string; Fixed2 (Fin 0); Text " A"%string] /\
      nth 9 (printed (print_summary (self (new_world 10 80 12 (fun _ => 0))) r)) [] =
        [Text "  - Max Current: "%string; Fixed2 (Fin 0); Text " A"%string] /\
      nth 10 (printed (print_summary (self (new_world 10 80 12 (fun _ => 0))) r)) [] =
        [Text "  - Min Current: "%string; Fixed2 (Fin 0); Text " A"%string] /\
      nth 12 (printed (print_summary (self (new_world 10 80 12 (fun _ => 0))) r)) [] =
        discharge_time_line (Fin 3) /\
      nth 14 (printed (print_summary (self (new_world 10 80 12 (fun _ => 0))) r)) [] =
        [Text "  - Energy Delivered: "%string; Fixed2 (Fin 0); Text " Wh"%string]
  | inl _ => ~ In "random"%string supported_profiles
  end.
Proof.
  split; [lra |]. split; [lra |]. split; [lra |].
  apply (zero_current_summary 10 80 12 (fun _ => 0) 3 "random" true); lra.
Defined.
